(** * The medical-image processor: job history, image registry and
      volume visibility

    A shallow embedding of the event handlers of the
    [MedicalImageProcessor] component (the React component holding the
    image registry, the selected tool, the processing history and the
    shared Niivue renderer), together with the properties of its job
    lifecycle, registry and visibility operations.

    The component state is an explicit record; every handler is a
    computation in a small state-and-exception monad, so that a renderer
    call that raises aborts the rest of the handler while the effects
    already performed stay in place, as in JavaScript. *)

From stdpp Require Import base list strings pretty.
From Stdlib Require Import ZArith Lia.

Local Open Scope string_scope.
Local Open Scope list_scope.
Local Open Scope Z_scope.

(** ** Data model *)

(** [type ImageFile = { id, name, selected }] *)
Module ImageFile.
Record ImageFile := mk { id : string; name : string; selected : bool }.
End ImageFile.
Abbreviation ImageFile := ImageFile.ImageFile.

(** [type ProcessingTool = { id, name, description }] *)
Module ProcessingTool.
Record ProcessingTool := mk { id : string; name : string; description : string }.
End ProcessingTool.
Abbreviation ProcessingTool := ProcessingTool.ProcessingTool.

(** Modelled from the spec: a volume held by the renderer ([NVImage] is a
    class of the renderer package): the fields the component reads ([id],
    [name]) and the one it writes through [setOpacity]. *)
Module NVImage.
Record NVImage := mk { id : string; name : string; opacity : Z }.
End NVImage.
Abbreviation NVImage := NVImage.NVImage.

(** Modelled from the spec: one entry of a document's
    [imageOptionsArray], naming a volume to load. *)
Module ImageOptions.
Record ImageOptions := mk { name : string; opacity : Z }.
End ImageOptions.
Abbreviation ImageOptions := ImageOptions.ImageOptions.

(** Modelled from the spec: [DocumentData], the document snapshot
    produced by [nv.json()] and returned by the [/scene] endpoint.
    [imageOptionsArray] is an optional field (the component reads it
    with [!]). *)
Record DocumentData := { imageOptionsArray : option (list ImageOptions) }.

(** Modelled from the spec: [NVDocument], a loaded document; the
    component reads [result.data]. *)
Record NVDocument := { data : DocumentData }.

Inductive Status := pending | completed | failed.

(** Modelled from the spec: the Job Record.  [ProcessingHistoryItem] is
    declared by the history component, which is not among the sources;
    the fields are those [handleProcessImages] and its timer callback set,
    [result] and [error] being optional. *)
Module HistoryItem.
Record ProcessingHistoryItem := mk {
  id : string;
  timestamp : Z;
  nvDocument : DocumentData;
  toolName : string;
  status : Status;
  result : option NVDocument;
  error : option string }.
End HistoryItem.
Abbreviation ProcessingHistoryItem := HistoryItem.ProcessingHistoryItem.

#[global] Instance Status_eq_dec : EqDecision Status.
Proof. solve_decision. Defined.

(** A value thrown by JavaScript code: an object carrying a [message]
    (an [Error]), or any other value, given by its [String(...)] text. *)
Inductive thrown :=
  | ErrorObject (message : string)
  | OtherValue (text : string).

(** ** The renderer *)

(** The calls that change the renderer, in the order they were issued. *)
Inductive NvCall :=
  | AddVolume (v : NVImage)
  | RemoveVolumeByIndex (index : Z)
  | SetOpacity (volIdx : Z) (newOpacity : Z)
  | UpdateGLVolume
  | LoadVolumes (optionsArray : list ImageOptions).

(** Modelled from the spec: the Renderer Adapter (the [Niivue] class of
    the package [@niivue/niivue], which is not part of the repository).
    The renderer holds an ordered list of volumes; [calls] records the
    state-changing calls it has served.  An operation that is given an
    index naming no volume raises and leaves the renderer as it was. *)
Record Niivue := { volumes : list NVImage; calls : list NvCall }.

(** The renderer after it has served the call [c], holding the volumes
    [vs]. *)
Definition served (c : NvCall) (vs : list NVImage) (r : Niivue) : Niivue :=
  {| volumes := vs; calls := calls r ++ [c] |}.

(** [volumes[index]]: no volume at a negative index or past the end. *)
Definition volume_at (index : Z) (r : Niivue) : option NVImage :=
  if decide (0 ≤ index) then volumes r !! Z.to_nat index else None.

(** Modelled from the spec: [addVolume(volume)] appends to the active
    volume set. *)
Definition addVolume (v : NVImage) (r : Niivue) : thrown + Niivue :=
  inr (served (AddVolume v) (volumes r ++ [v]) r).

(** Modelled from the spec: [removeVolumeByIndex(index)] takes the volume
    at [index] out of the active set; the later volumes move down by
    one. *)
Definition removeVolumeByIndex (index : Z) (r : Niivue) : thrown + Niivue :=
  match volume_at index r with
  | Some _ =>
      inr (served (RemoveVolumeByIndex index) (delete (Z.to_nat index) (volumes r)) r)
  | None => inl (ErrorObject "Index of volume out of bounds")
  end.

(** Modelled from the spec: [getVolumeIndexByID(id)] resolves an image id
    to its current renderer index, the first volume carrying the id; [-1]
    signals that no volume carries it. *)
Definition getVolumeIndexByID (id : string) (r : Niivue) : Z :=
  match list_find (λ v, NVImage.id v = id) (volumes r) with
  | Some (i, _) => Z.of_nat i
  | None => -1
  end.

Definition with_opacity (o : Z) (v : NVImage) : NVImage :=
  NVImage.mk (NVImage.id v) (NVImage.name v) o.

(** Modelled from the spec: [setOpacity(volumeIndex, value)] writes the
    opacity of the volume at that index. *)
Definition setOpacity (volIdx newOpacity : Z) (r : Niivue) : thrown + Niivue :=
  match volume_at volIdx r with
  | Some v =>
      inr (served (SetOpacity volIdx newOpacity)
             (<[Z.to_nat volIdx := with_opacity newOpacity v]> (volumes r)) r)
  | None => inl (ErrorObject "Cannot set properties of undefined (setting 'opacity')")
  end.

(** Modelled from the spec: [updateGLVolume()] redraws; the volumes stay
    as they are. *)
Definition updateGLVolume (r : Niivue) : thrown + Niivue :=
  inr (served UpdateGLVolume (volumes r) r).

(** Modelled from the spec: [loadVolumes(optionsArray)] bulk-loads a
    result's volumes, which replace the rendered set; what fetching the
    entries yields is supplied by the environment ([fetched]). *)
Definition loadVolumes (optionsArray : list ImageOptions) (fetched : list NVImage)
    (r : Niivue) : thrown + Niivue :=
  inr (served (LoadVolumes optionsArray) fetched r).

Definition options_of (v : NVImage) : ImageOptions :=
  ImageOptions.mk (NVImage.name v) (NVImage.opacity v).

(** Modelled from the spec: [json()] serializes the current renderer
    state to a document snapshot, one entry per volume rendered. *)
Definition json (r : Niivue) : DocumentData :=
  {| imageOptionsArray := Some (options_of <$> volumes r) |}.

(** ** Component state *)

(** The [useState] cells of the component that the handlers below touch
    ([sidebarOpen] and [viewMode] only drive the presentation and are left
    out), the module-level renderer [nv], the notices shown with [alert],
    and the [setTimeout] callbacks not yet run (each closure holds the id
    of the history item it was created for). *)
Record AppState := {
  images : list ImageFile;
  currentImageIndex : option nat;
  selectedTool : option string;
  processingHistory : list ProcessingHistoryItem;
  nv : Niivue;
  alerts : list string;
  timers : list string }.

Definition initial : AppState :=
  {| images := []; currentImageIndex := None; selectedTool := None;
     processingHistory := [];
     nv := {| volumes := []; calls := [] |};
     alerts := []; timers := [] |}.

(** [const nvRef = useRef<Niivue | null>(nv)]: the ref is created holding
    the renderer and the component never assigns it, so [nvRef.current]
    is the renderer itself. *)
Definition nvRef_current (s : AppState) : option Niivue := Some (nv s).

Definition processingTools : list ProcessingTool :=
  [ ProcessingTool.mk "segmentation" "Segmentation" "Segment different regions in the image";
    ProcessingTool.mk "registration" "Image Registration" "Align multiple images" ].

(** ** The handler monad *)

Inductive completion (A : Type) :=
  | Returned (a : A)
  | Threw (e : thrown).
Arguments Returned {A} a.
Arguments Threw {A} e.

Definition M (A : Type) : Type := AppState → completion A * AppState.

#[global] Instance M_ret : MRet M := λ A a s, (Returned a, s).
#[global] Instance M_bind : MBind M := λ A B f m s,
  match m s with
  | (Returned a, s') => f a s'
  | (Threw e, s') => (Threw e, s')
  end.

Definition get : M AppState := λ s, (Returned s, s).
Definition modify (f : AppState → AppState) : M unit := λ s, (Returned (), f s).
Definition throw {A} (e : thrown) : M A := λ s, (Threw e, s).

Definition setImages (v : list ImageFile) : M unit :=
  modify (λ s, {| images := v; currentImageIndex := currentImageIndex s;
                  selectedTool := selectedTool s;
                  processingHistory := processingHistory s; nv := nv s;
                  alerts := alerts s; timers := timers s |}).

Definition setCurrentImageIndex (v : option nat) : M unit :=
  modify (λ s, {| images := images s; currentImageIndex := v;
                  selectedTool := selectedTool s;
                  processingHistory := processingHistory s; nv := nv s;
                  alerts := alerts s; timers := timers s |}).

Definition setSelectedTool (v : option string) : M unit :=
  modify (λ s, {| images := images s; currentImageIndex := currentImageIndex s;
                  selectedTool := v;
                  processingHistory := processingHistory s; nv := nv s;
                  alerts := alerts s; timers := timers s |}).

(** [setProcessingHistory(prev => f prev)] *)
Definition setProcessingHistory
    (f : list ProcessingHistoryItem → list ProcessingHistoryItem) : M unit :=
  modify (λ s, {| images := images s; currentImageIndex := currentImageIndex s;
                  selectedTool := selectedTool s;
                  processingHistory := f (processingHistory s); nv := nv s;
                  alerts := alerts s; timers := timers s |}).

Definition set_timers (f : list string → list string) : M unit :=
  modify (λ s, {| images := images s; currentImageIndex := currentImageIndex s;
                  selectedTool := selectedTool s;
                  processingHistory := processingHistory s; nv := nv s;
                  alerts := alerts s; timers := f (timers s) |}).

Definition alert (msg : string) : M unit :=
  modify (λ s, {| images := images s; currentImageIndex := currentImageIndex s;
                  selectedTool := selectedTool s;
                  processingHistory := processingHistory s; nv := nv s;
                  alerts := alerts s ++ [msg]; timers := timers s |}).

Definition with_nv (r : Niivue) (s : AppState) : AppState :=
  {| images := images s; currentImageIndex := currentImageIndex s;
     selectedTool := selectedTool s;
     processingHistory := processingHistory s; nv := r;
     alerts := alerts s; timers := timers s |}.

(** A call on the shared renderer: it changes [nv] in place, or raises. *)
Definition nvCall (op : Niivue → thrown + Niivue) : M unit := λ s,
  match op (nv s) with
  | inr r => (Returned (), with_nv r s)
  | inl e => (Threw e, s)
  end.

(** [xs.forEach(f)] *)
Fixpoint forEach {A} (xs : list A) (f : A → M unit) : M unit :=
  match xs with
  | [] => mret ()
  | x :: rest => f x ;; forEach rest f
  end.

(** ** Handlers *)

(** JavaScript truthiness of a [string | null] value: [null] and the empty
    string are falsy. *)
Definition truthy (v : option string) : bool :=
  match v with
  | None => false
  | Some str => negb (bool_decide (str = ""))
  end.

(** [a || b] on strings. *)
Definition or_else (a b : string) : string :=
  if bool_decide (a = "") then b else a.

(** [tool?.name || fallback] *)
Definition name_or (tool : option ProcessingTool) (fallback : string) : string :=
  match tool with
  | Some t => or_else (ProcessingTool.name t) fallback
  | None => fallback
  end.

(** One file of [handleFileUpload] finishing to load: the volume is added
    to the renderer and an unselected entry is appended to the registry. *)
Definition fileLoaded (nvimage : NVImage) : M unit :=
  nvCall (addVolume nvimage) ;;
  s ← get;
  setImages (images s ++ [ImageFile.mk (NVImage.id nvimage) (NVImage.name nvimage) false]).

(** The synchronous part of [handleFileUpload(files)]; the files
    themselves arrive later, one [fileLoaded] each. *)
Definition handleFileUpload (files : nat) : M unit :=
  s ← get;
  match nvRef_current s with
  | None => mret ()
  | Some _ =>
      if bool_decide (currentImageIndex s = None) && bool_decide (0 < files)%nat
      then setCurrentImageIndex (Some (length (images s)))
      else mret ()
  end.

Definition toggle (id : string) (img : ImageFile) : ImageFile :=
  if bool_decide (ImageFile.id img = id)
  then ImageFile.mk (ImageFile.id img) (ImageFile.name img) (negb (ImageFile.selected img))
  else img.

Definition toggleImageSelection (id : string) : M unit :=
  s ← get;
  setImages (toggle id <$> images s).

(** What the [try] block of the timer callback evaluates to: the loaded
    result document, or the value thrown on the way. *)
Inductive resolution :=
  | FetchRejects (e : thrown)
  | HttpNotOk (httpStatus : Z)
  | JsonRejects (e : thrown)
  | LoadRejects (doc : DocumentData) (e : thrown)
  | Loaded (doc : DocumentData) (resultDocument : NVDocument).

Definition try_block (r : resolution) : thrown + NVDocument :=
  match r with
  | FetchRejects e => inl e
  | HttpNotOk st => inl (ErrorObject ("HTTP error! Status: " +:+ pretty st))
  | JsonRejects e => inl e
  | LoadRejects _ e => inl e
  | Loaded _ resultDocument => inr resultDocument
  end.

Definition error_text (e : thrown) : string :=
  match e with
  | ErrorObject message => message
  | OtherValue text => text
  end.

Definition settle (outcome : thrown + NVDocument) (item : ProcessingHistoryItem)
    : ProcessingHistoryItem :=
  match outcome with
  | inr resultDocument =>
      HistoryItem.mk (HistoryItem.id item) (HistoryItem.timestamp item)
        (HistoryItem.nvDocument item) (HistoryItem.toolName item)
        completed (Some resultDocument) (HistoryItem.error item)
  | inl e =>
      HistoryItem.mk (HistoryItem.id item) (HistoryItem.timestamp item)
        (HistoryItem.nvDocument item) (HistoryItem.toolName item)
        failed (HistoryItem.result item) (Some (error_text e))
  end.

(** The update both branches of the timer callback hand to
    [setProcessingHistory]:
    [prev.map(item => item.id === historyItem.id ? {...item, ...} : item)]. *)
Definition resolve_update (jobId : string) (outcome : thrown + NVDocument)
    (prev : list ProcessingHistoryItem) : list ProcessingHistoryItem :=
  (λ item, if bool_decide (HistoryItem.id item = jobId) then settle outcome item else item)
    <$> prev.

(** The [k]-th outstanding [setTimeout] callback runs to its end. *)
Definition timerCallback (k : nat) (r : resolution) : M unit :=
  s ← get;
  match timers s !! k with
  | None => mret ()
  | Some jobId =>
      set_timers (delete k) ;;
      setProcessingHistory (resolve_update jobId (try_block r))
  end.

(** [handleProcessImages]: [rnd] is the text
    [Math.random().toString(36).substring(2, 9)] evaluates to and [now]
    the value of [new Date()]. *)
Definition handleProcessImages (rnd : string) (now : Z) : M unit :=
  s ← get;
  let selectedImages := filter (λ img, ImageFile.selected img = true) (images s) in
  if bool_decide (length selectedImages = 0%nat) || negb (truthy (selectedTool s)) then
    alert "Please select at least one image and a processing tool"
  else
    let toolId := default "" (selectedTool s) in
    match nvRef_current s with
    | None => mret ()
    | Some _ =>
        forEach
          (reverse (filter (λ p, ImageFile.selected p.1 = false)
                      (imap (λ idx img, (img, idx)) (images s))))
          (λ p, nvCall (removeVolumeByIndex (Z.of_nat p.2))) ;;
        s1 ← get;
        let nvd := json (nv s1) in
        let tool := find (λ t, bool_decide (ProcessingTool.id t = toolId)) processingTools in
        let historyItem :=
          HistoryItem.mk rnd now nvd (name_or tool toolId) pending None None in
        setProcessingHistory (λ prev, historyItem :: prev) ;;
        set_timers (λ ts, ts ++ [HistoryItem.id historyItem])
    end.

(** [handleViewResult(item)]; [fetched] is what the renderer obtains when
    it loads the entries. *)
Definition handleViewResult (item : ProcessingHistoryItem) (fetched : list NVImage)
    : M unit :=
  s ← get;
  match HistoryItem.result item with
  | None => alert "No result available for this item"
  | Some result =>
      match nvRef_current s with
      | None => alert "Niivue instance is not available"
      | Some _ =>
          (if truthy (HistoryItem.error item)
           then alert ("Process returned error message " +:+ default "" (HistoryItem.error item))
           else mret ()) ;;
          match imageOptionsArray (data result) with
          | None => throw (ErrorObject "Cannot read properties of undefined (reading 'length')")
          | Some optionsArray =>
              if bool_decide (length optionsArray = 0%nat)
              then alert "No image options available in the result"
              else nvCall (loadVolumes optionsArray fetched)
          end
      end
  end.

Definition handleDeleteHistoryItem (id : string) : M unit :=
  setProcessingHistory (filter (λ item, HistoryItem.id item ≠ id)).

(** [handleClearHistory]; [confirmed] is the answer to the [confirm]
    dialog. *)
Definition handleClearHistory (confirmed : bool) : M unit :=
  if confirmed then setProcessingHistory (λ _, []) else mret ().

(** The callback [handleVisibility] passes to [images.map]; [p] is the
    pair of [img] and [index]. *)
Definition visibilityCallback (id : nat) (p : ImageFile * nat) : M unit :=
  s ← get;
  if bool_decide (p.2 = id)
  then nvCall (setOpacity (getVolumeIndexByID (ImageFile.id p.1) (nv s)) 1)
  else nvCall (setOpacity (getVolumeIndexByID (ImageFile.id p.1) (nv s)) 0).

Definition handleVisibility (id : nat) : M unit :=
  s ← get;
  setCurrentImageIndex (Some id) ;;
  forEach (imap (λ index img, (img, index)) (images s)) (visibilityCallback id) ;;
  nvCall updateGLVolume.

(** ** Sessions *)

(** What can happen to the component: a user action or the completion of
    asynchronous work, with the values the environment supplies. *)
Inductive event :=
  | FilesDropped (files : nat)
  | FileLoaded (nvimage : NVImage)
  | ToggleImageSelection (id : string)
  | ToolChosen (value : string)
  | ProcessImages (rnd : string) (now : Z)
  | TimerFires (k : nat) (r : resolution)
  | ViewResult (item : ProcessingHistoryItem) (fetched : list NVImage)
  | DeleteHistoryItem (id : string)
  | ClearHistory (confirmed : bool)
  | Visibility (index : nat).

Definition handler (ev : event) : M unit :=
  match ev with
  | FilesDropped files => handleFileUpload files
  | FileLoaded nvimage => fileLoaded nvimage
  | ToggleImageSelection id => toggleImageSelection id
  | ToolChosen value => setSelectedTool (Some value)
  | ProcessImages rnd now => handleProcessImages rnd now
  | TimerFires k r => timerCallback k r
  | ViewResult item fetched => handleViewResult item fetched
  | DeleteHistoryItem id => handleDeleteHistoryItem id
  | ClearHistory confirmed => handleClearHistory confirmed
  | Visibility index => handleVisibility index
  end.

(** The state after an event; a handler that raises keeps the effects it
    had performed. *)
Definition step (ev : event) (s : AppState) : AppState := (handler ev s).2.

Definition run (evs : list event) (s : AppState) : AppState :=
  foldl (λ st ev, step ev st) s evs.

(** ** Notices and observations *)

Definition validationNotice : string :=
  "Please select at least one image and a processing tool".

Definition emptyResultNotice : string :=
  "No image options available in the result".

(** The handler let its caller or the user know that something went
    wrong: it raised, or it showed a notice. *)
Definition signalled (s : AppState) (res : completion unit * AppState) : Prop :=
  (∃ e, res.1 = Threw e) ∨ alerts res.2 ≠ alerts s.

(** The chosen tool id names one of [processingTools]. *)
Definition resolves (v : option string) : bool :=
  match v with
  | None => false
  | Some toolId =>
      bool_decide
        (is_Some (find (λ t, bool_decide (ProcessingTool.id t = toolId)) processingTools))
  end.

(** A submission turned down by validation: the notice is shown and
    nothing else has changed. *)
Definition rejected (s : AppState) (res : completion unit * AppState) : Prop :=
  res.1 = Returned () ∧
  alerts res.2 = alerts s ++ [validationNotice] ∧
  processingHistory res.2 = processingHistory s ∧
  timers res.2 = timers s ∧
  nv res.2 = nv s ∧
  images res.2 = images s.

(** A submission that passes validation: an image is selected and a tool
    is chosen. *)
Definition accepts (s : AppState) : Prop :=
  filter (λ img, ImageFile.selected img = true) (images s) ≠ []
  ∧ truthy (selectedTool s) = true.

(** The record [handleProcessImages] creates, given the renderer as it
    stands when the snapshot is taken. *)
Definition newItem (rnd : string) (now : Z) (s : AppState) (r : Niivue)
    : ProcessingHistoryItem :=
  let toolId := default "" (selectedTool s) in
  HistoryItem.mk rnd now (json r)
    (name_or (find (λ t, bool_decide (ProcessingTool.id t = toolId)) processingTools) toolId)
    pending None None.

(** The renderer volumes standing at the positions of the selected
    images, when volumes and images are listed side by side. *)
Definition kept (imgs : list ImageFile) (vs : list NVImage) : list NVImage :=
  (filter (λ p, ImageFile.selected p.1 = true) (zip imgs vs)).*2.

(** The registry positions [handleProcessImages] hands to
    [removeVolumeByIndex], in the order it does. *)
Definition pruned (imgs : list ImageFile) : list (ImageFile * nat) :=
  reverse (filter (λ p, ImageFile.selected p.1 = false)
             (imap (λ idx img, (img, idx)) imgs)).

(** The opacity of the volume an image id resolves to. *)
Definition opacity_of (id : string) (r : Niivue) : option Z :=
  NVImage.opacity <$> volume_at (getVolumeIndexByID id r) r.

(** The opacity image [index] is to get when image [id] is made active. *)
Definition target (id index : nat) : Z := if bool_decide (index = id) then 1 else 0.

(** The [setOpacity] calls making image [id] the only visible one, one
    per registry image and in registry order. *)
Definition opacity_calls (id : nat) (s : AppState) : list NvCall :=
  imap (λ index img,
          SetOpacity (getVolumeIndexByID (ImageFile.id img) (nv s)) (target id index))
    (images s).

(** Image [id] of the registry of [s] has been made the active one: the
    handler returned, the cursor is [id], the volume of every registry
    image has opacity 1 or 0 according to its position, and the renderer
    served one [setOpacity] per image followed by one redraw. *)
Definition made_active (id : nat) (s : AppState) (res : completion unit * AppState)
    : Prop :=
  res.1 = Returned () ∧
  currentImageIndex res.2 = Some id ∧
  (∀ k img, images s !! k = Some img →
            opacity_of (ImageFile.id img) (nv res.2) = Some (target id k)) ∧
  calls (nv res.2) = calls (nv s) ++ opacity_calls id s ++ [UpdateGLVolume] ∧
  images res.2 = images s ∧
  processingHistory res.2 = processingHistory s.

(** The volume list after [setOpacity] on the volume [id] resolves to. *)
Definition assign (vs : list NVImage) (id : string) (o : Z) : list NVImage :=
  match list_find (λ v, NVImage.id v = id) vs with
  | Some (n, v) => <[n := with_opacity o v]> vs
  | None => vs
  end.

Definition opacity_in (vs : list NVImage) (id : string) : option Z :=
  (λ nv, NVImage.opacity nv.2) <$> list_find (λ v, NVImage.id v = id) vs.

(** The texts drawn for the submissions of a session, in order. *)
Definition drawn (evs : list event) : list string :=
  omap (λ ev, match ev with ProcessImages rnd _ => Some rnd | _ => None end) evs.

(** The records an event puts at the head of the history. *)
Definition created (ev : event) (s : AppState) : list ProcessingHistoryItem :=
  match ev with
  | ProcessImages _ _ =>
      take (length (processingHistory (step ev s)) - length (processingHistory s))
        (processingHistory (step ev s))
  | _ => []
  end.

(** All the records created along a session that starts in [s]. *)
Fixpoint records_created (evs : list event) (s : AppState)
    : list ProcessingHistoryItem :=
  match evs with
  | [] => []
  | ev :: rest => created ev s ++ records_created rest (step ev s)
  end.

(** A record holds the outcome its status announces, and no other. *)
Definition consistent (item : ProcessingHistoryItem) : Prop :=
  match HistoryItem.status item with
  | pending => HistoryItem.result item = None ∧ HistoryItem.error item = None
  | completed => is_Some (HistoryItem.result item) ∧ HistoryItem.error item = None
  | failed => HistoryItem.result item = None ∧ is_Some (HistoryItem.error item)
  end.

(** What holds of the history and the outstanding timers in a session
    whose drawn ids [D] never repeat. *)
Record jobs_invariant (D : list string) (s : AppState) : Prop := {
  inv_history_ids : NoDup (HistoryItem.id <$> processingHistory s);
  inv_timers : NoDup (timers s);
  inv_history_drawn : ∀ item, item ∈ processingHistory s → HistoryItem.id item ∈ D;
  inv_timers_drawn : ∀ x, x ∈ timers s → x ∈ D;
  inv_settled : ∀ item, item ∈ processingHistory s →
                        HistoryItem.status item ≠ pending →
                        HistoryItem.id item ∉ timers s;
  inv_consistent : ∀ item, item ∈ processingHistory s → consistent item }.

(** ** Sample sessions *)

Definition volA : NVImage := NVImage.mk "vol-a" "A.nii" 1.
Definition volB : NVImage := NVImage.mk "vol-b" "B.nii" 1.

(** Two files loaded, the second one ticked, and "segmentation" chosen. *)
Definition ready : AppState :=
  run [FilesDropped 2; FileLoaded volA; FileLoaded volB;
       ToggleImageSelection "vol-b"; ToolChosen "segmentation"] initial.

(** The same, with a tool id that names no processing tool. *)
Definition ready_unknown_tool : AppState :=
  run [FilesDropped 2; FileLoaded volA; FileLoaded volB;
       ToggleImageSelection "vol-b"; ToolChosen "denoise"] initial.

Definition emptyDoc : DocumentData := {| imageOptionsArray := Some [] |}.
Definition emptyResult : NVDocument := {| data := emptyDoc |}.

(** One submission, still pending. *)
Definition submitted : AppState := run [ProcessImages "k3x9q2a" 1000] ready.

(** One submission that completed with an empty result. *)
Definition settled : AppState :=
  run [TimerFires 0 (Loaded emptyDoc emptyResult)] submitted.

Definition settledItem : ProcessingHistoryItem :=
  HistoryItem.mk "k3x9q2a" 1000 {| imageOptionsArray := Some [options_of volB] |}
    "Segmentation" completed (Some emptyResult) None.

(** What a later state holds of a record [item] seen earlier: every
    record with its id is still [item] itself, or [item] was pending and
    every record with its id is [item] settled with one and the same
    outcome, its timer being gone. *)
Definition follows (item : ProcessingHistoryItem) (s : AppState) : Prop :=
  ((∀ item', item' ∈ processingHistory s →
             HistoryItem.id item' = HistoryItem.id item → item' = item)
   ∧ (HistoryItem.status item ≠ pending → HistoryItem.id item ∉ timers s))
  ∨ (HistoryItem.status item = pending
     ∧ (HistoryItem.id item ∉ timers s)
     ∧ ∃ outcome, ∀ item', item' ∈ processingHistory s →
                           HistoryItem.id item' = HistoryItem.id item →
                           item' = settle outcome item).

(** Both images ticked and "registration" chosen: a submission removes no
    volume. *)
Definition setup_all : list event :=
  [FilesDropped 2; FileLoaded volA; FileLoaded volB;
   ToggleImageSelection "vol-a"; ToggleImageSelection "vol-b";
   ToolChosen "registration"].

Definition ready_all : AppState := run setup_all initial.

(** Two submissions with different ids; the second one fails before the
    first one completes. *)
Definition two_jobs : list event :=
  setup_all ++ [ProcessImages "k3x9q2a" 1000; ProcessImages "p07zzm1" 2000;
                TimerFires 1 (HttpNotOk 502)].

Definition first_completes : list event := [TimerFires 0 (Loaded emptyDoc emptyResult)].

(** Two submissions that drew the same text; the first one completes,
    then the second one fails. *)
Definition collision : list event :=
  [ProcessImages "k3x9q2a" 1000; TimerFires 0 (Loaded emptyDoc emptyResult);
   ProcessImages "k3x9q2a" 2000].

(** ** The rendered view *)

(** The "Process Selected Images" button:
    [disabled={!images.some((img) => img.selected) || !selectedTool}]. *)
Definition processDisabled (s : AppState) : bool :=
  negb (existsb ImageFile.selected (images s)) || negb (truthy (selectedTool s)).

(** The uploader is rendered in place of the canvas while
    [currentImageIndex === null]. *)
Definition showsUploader (s : AppState) : bool :=
  bool_decide (currentImageIndex s = None).

(** One entry of the image list: its React key, the name shown, the state
    of its checkbox and whether it carries the highlight
    ([currentImageIndex === index]). *)
Record ImageRow := {
  row_key : string;
  row_name : string;
  row_checked : bool;
  row_highlighted : bool }.

Definition imageRows (s : AppState) : list ImageRow :=
  imap (λ index image,
          {| row_key := ImageFile.id image; row_name := ImageFile.name image;
             row_checked := ImageFile.selected image;
             row_highlighted := bool_decide (currentImageIndex s = Some index) |})
    (images s).

(** The values of the radio items, one per processing tool. *)
Definition radioValues : list string := ProcessingTool.id <$> processingTools.

(** An event the rendered controls can produce as far as the tool is
    concerned: the radio group only hands over the value of one of its
    items. *)
Definition offered (ev : event) : Prop :=
  match ev with
  | ToolChosen value => value ∈ radioValues
  | _ => True
  end.

(** ** Registry and renderer side by side *)

Definition label_of_volume (v : NVImage) : string * string :=
  (NVImage.id v, NVImage.name v).

Definition label_of_image (img : ImageFile) : string * string :=
  (ImageFile.id img, ImageFile.name img).

(** The renderer holds one volume per registry image, in registry order,
    with the same id and name. *)
Definition aligned (s : AppState) : Prop :=
  label_of_volume <$> volumes (nv s) = label_of_image <$> images s.

(** Events that neither prune the renderer nor load a result into it. *)
Definition keeps_volumes (ev : event) : Prop :=
  match ev with
  | ProcessImages _ _ | ViewResult _ _ => False
  | _ => True
  end.

(** ** The view mode *)

(** The cells [handleViewMode] writes: the [viewMode] state and the codes
    handed to the renderer's [setSliceType], in order. *)
Record ViewCells := { viewMode : string; sliceTypes : list Z }.

(** [x || 0] on an optional number. *)
Definition or_zero (x : option Z) : Z :=
  match x with
  | Some code => if bool_decide (code = 0) then 0 else code
  | None => 0
  end.

(** [handleViewMode(mode)]; [sliceTypeMap] is the lookup table of the
    canvas component, which is not among the sources.  The handler guards
    the renderer call with [if (nvRef.current)], and the ref always holds
    the renderer. *)
Definition handleViewMode (sliceTypeMap : string → option Z) (mode : string)
    (c : ViewCells) : ViewCells :=
  {| viewMode := mode; sliceTypes := sliceTypes c ++ [or_zero (sliceTypeMap mode)] |}.

(** The toggle group of [ViewSelector]:
    [onValueChange={(value) => value && onViewChange(value as ViewMode)}]. *)
Definition onValueChange (onViewChange : string → ViewCells → ViewCells)
    (value : string) (c : ViewCells) : ViewCells :=
  if bool_decide (value = "") then c else onViewChange value c.

(** ** More sample sessions *)

Definition volC : NVImage := NVImage.mk "vol-c" "C.nii" 1.

(** Three files loaded, only the last one ticked. *)
Definition three_images : AppState :=
  run [FilesDropped 3; FileLoaded volA; FileLoaded volB; FileLoaded volC;
       ToggleImageSelection "vol-c"; ToolChosen "segmentation"] initial.

(** After one submission the renderer holds the ticked volume only. *)
Definition pruned_once : AppState := run [ProcessImages "k3x9q2a" 1000] three_images.

(** Files loaded, an image made active, a box ticked, a record deleted:
    nothing that removes or replaces volumes. *)
Definition calm_session : list event :=
  [FilesDropped 2; FileLoaded volA; FileLoaded volB; Visibility 1;
   ToggleImageSelection "vol-a"; DeleteHistoryItem "k3x9q2a"].

Definition oneOption : list ImageOptions := [options_of volC].
Definition loadedItem : ProcessingHistoryItem :=
  HistoryItem.mk "k3x9q2a" 1000 emptyDoc "Segmentation" completed
    (Some {| data := {| imageOptionsArray := Some oneOption |} |}) None.

(** ** Sessions used to illustrate validation and resolution *)

(** Two files loaded and one ticked, no tool chosen yet. *)
Definition untooled_session : list event :=
  [FilesDropped 2; FileLoaded volA; FileLoaded volB; ToggleImageSelection "vol-b"].

(** Two submissions with different ids, both pending. *)
Definition two_pending : AppState :=
  run (setup_all ++ [ProcessImages "k3x9q2a" 1000; ProcessImages "p07zzm1" 2000]) initial.

(** Two submissions that drew the same id, both pending. *)
Definition duplicate_pending : AppState :=
  run [ProcessImages "k3x9q2a" 1000; ProcessImages "k3x9q2a" 2000] ready_all.

(** * Properties *)

Ltac unfold_handler :=
  unfold handleProcessImages, handleViewResult, handleDeleteHistoryItem,
    handleClearHistory, handleVisibility, visibilityCallback, toggleImageSelection,
    timerCallback,
    handleFileUpload, fileLoaded, setImages, setCurrentImageIndex,
    setSelectedTool, setProcessingHistory, set_timers, alert, nvCall, get,
    modify, throw, nvRef_current, mbind, M_bind, mret, M_ret;
  simpl.

(** ** Clearing and deleting history *)

(** C3 (as amended): [handleClearHistory] empties the history collection,
    whatever its size, when the user confirms the dialog, leaving the rest
    of the state alone; when the user declines nothing changes. *)
Theorem clear_history_confirmed (s : AppState) :
  (handleClearHistory true s).1 = Returned () ∧
  processingHistory (handleClearHistory true s).2 = [] ∧
  images (handleClearHistory true s).2 = images s ∧
  nv (handleClearHistory true s).2 = nv s ∧
  handleClearHistory false s = (Returned (), s).
Proof. unfold_handler. repeat split. Qed.

(** C3, as stated, fails: with one record in the history and the dialog
    declined, the history is not emptied. *)
Lemma clear_history_declined_keeps :
  length (processingHistory submitted) = 1%nat ∧
  processingHistory (handleClearHistory false submitted).2 ≠ [].
Proof. split; [reflexivity | discriminate]. Qed.

(** C5: [handleDeleteHistoryItem id] removes the records carrying [id] and
    no other; the remaining records keep their relative order (the new
    history is a sublist of the old one, shorter by the number of records
    removed), and nothing else in the state changes. *)
Theorem delete_history_item_exact (id : string) (s : AppState) :
  let res := handleDeleteHistoryItem id s in
  res.1 = Returned () ∧
  (∀ item, item ∈ processingHistory res.2 ↔
           item ∈ processingHistory s ∧ HistoryItem.id item ≠ id) ∧
  sublist (processingHistory res.2) (processingHistory s) ∧
  (length (processingHistory res.2)
   + length (filter (λ item, HistoryItem.id item = id) (processingHistory s))
   = length (processingHistory s))%nat ∧
  images res.2 = images s ∧ nv res.2 = nv s ∧
  timers res.2 = timers s ∧ alerts res.2 = alerts s.
Proof.
  unfold_handler. split_and!; try reflexivity.
  - intros item. rewrite list_elem_of_filter. tauto.
  - apply sublist_filter.
  - induction (processingHistory s) as [|item l IH]; [reflexivity|].
    rewrite !filter_cons. destruct (decide (HistoryItem.id item = id));
      repeat case_decide; try contradiction; simpl in *; lia.
Qed.

(** ** Resolution of a job *)

Lemma settle_status (outcome : thrown + NVDocument) (item : ProcessingHistoryItem) :
  HistoryItem.status (settle outcome item)
  = match outcome with inr _ => completed | inl _ => failed end.
Proof. destruct outcome; reflexivity. Qed.

Lemma settle_id (outcome : thrown + NVDocument) (item : ProcessingHistoryItem) :
  HistoryItem.id (settle outcome item) = HistoryItem.id item.
Proof. destruct outcome; reflexivity. Qed.

Lemma resolve_update_ids jobId outcome (prev : list ProcessingHistoryItem) :
  HistoryItem.id <$> resolve_update jobId outcome prev = HistoryItem.id <$> prev.
Proof.
  unfold resolve_update. rewrite <- list_fmap_compose. apply list_fmap_ext.
  intros _ item _. simpl. case_bool_decide; [apply settle_id | reflexivity].
Qed.

Lemma resolve_update_lookup jobId outcome (prev : list ProcessingHistoryItem) i item :
  prev !! i = Some item →
  resolve_update jobId outcome prev !! i
  = Some (if decide (HistoryItem.id item = jobId) then settle outcome item else item).
Proof.
  intros H. unfold resolve_update. rewrite list_lookup_fmap, H. simpl.
  case_bool_decide; case_decide; done.
Qed.

(** C4 (as amended): when the records of the history have pairwise
    distinct ids and the timer callback of job [jobId] runs to its end,
    with success or with failure, the update locates the record by id and
    replaces that record alone: the new history is the old one with the
    record at that position replaced by its settled version (completed on
    success, failed on failure); every other record is untouched, length
    and order are preserved, and the rest of the state is left alone. *)
Theorem resolution_replaces_only_its_record
    (k i : nat) (r : resolution) (item : ProcessingHistoryItem) (s : AppState) :
  NoDup (HistoryItem.id <$> processingHistory s) →
  timers s !! k = Some (HistoryItem.id item) →
  processingHistory s !! i = Some item →
  let res := timerCallback k r s in
  res.1 = Returned () ∧
  processingHistory res.2 = <[i := settle (try_block r) item]> (processingHistory s) ∧
  (∀ j, j ≠ i → processingHistory res.2 !! j = processingHistory s !! j) ∧
  HistoryItem.id <$> processingHistory res.2 = HistoryItem.id <$> processingHistory s ∧
  HistoryItem.status (settle (try_block r) item)
  = match try_block r with inr _ => completed | inl _ => failed end ∧
  images res.2 = images s ∧ nv res.2 = nv s ∧ alerts res.2 = alerts s.
Proof.
  intros Hnd Hk Hi. unfold_handler. rewrite Hk. simpl.
  assert (resolve_update (HistoryItem.id item) (try_block r) (processingHistory s)
          = <[i := settle (try_block r) item]> (processingHistory s)) as Heq.
  { apply list_eq. intros j. destruct (decide (j = i)) as [-> | Hne].
    - rewrite list_lookup_insert_eq by (by eapply lookup_lt_Some).
      rewrite (resolve_update_lookup _ _ _ _ _ Hi). by rewrite decide_True.
    - rewrite list_lookup_insert_ne by done.
      destruct (processingHistory s !! j) as [other|] eqn:Hj.
      + rewrite (resolve_update_lookup _ _ _ _ _ Hj). rewrite decide_False; [done|].
        intros Hid. apply Hne.
        eapply NoDup_lookup; [exact Hnd | |]; rewrite list_lookup_fmap.
        * by rewrite Hj.
        * rewrite Hi. simpl. by rewrite Hid.
      + unfold resolve_update. by rewrite list_lookup_fmap, Hj. }
  split_and!; try reflexivity.
  - exact Heq.
  - intros j Hne. rewrite Heq. by rewrite list_lookup_insert_ne.
  - apply resolve_update_ids.
  - apply settle_status.
Qed.

Lemma resolution_replaces_only_its_record_witness :
  HistoryItem.id <$> processingHistory two_pending = ["p07zzm1"; "k3x9q2a"] ∧
  timers two_pending !! 1%nat = Some "p07zzm1" ∧
  HistoryItem.status <$> processingHistory (timerCallback 1 (HttpNotOk 502) two_pending).2
  = [failed; pending] ∧
  processingHistory (timerCallback 1 (HttpNotOk 502) two_pending).2 !! 1%nat
  = processingHistory two_pending !! 1%nat.
Proof.
  split; [reflexivity|]. split; [reflexivity|]. split; [reflexivity|].
  assert (NoDup (HistoryItem.id <$> processingHistory two_pending)) as Hnd.
  { apply (bool_decide_unpack (NoDup (HistoryItem.id <$> processingHistory two_pending))).
    vm_compute. exact I. }
  destruct (resolution_replaces_only_its_record 1 0 (HttpNotOk 502)
              (HistoryItem.mk "p07zzm1" 2000
                 {| imageOptionsArray := Some [options_of volA; options_of volB] |}
                 "Image Registration" pending None None)
              two_pending Hnd eq_refl eq_refl) as (_ & _ & Hothers & _).
  apply Hothers. lia.
Defined.

(** C4, as stated, fails: when two records share an id, the callback of
    the first job also replaces the record of the second job, whose own
    callback is still outstanding. *)
Lemma resolution_rewrites_another_record :
  ∃ mine other other',
    processingHistory duplicate_pending = [other; mine]
    ∧ HistoryItem.timestamp mine = 1000 ∧ HistoryItem.timestamp other = 2000
    ∧ timers duplicate_pending = ["k3x9q2a"; "k3x9q2a"]
    ∧ processingHistory (timerCallback 0 (HttpNotOk 502) duplicate_pending).2 !! 0%nat
      = Some other'
    ∧ HistoryItem.status other = pending ∧ HistoryItem.status other' = failed
    ∧ timers (timerCallback 0 (HttpNotOk 502) duplicate_pending).2 = ["k3x9q2a"].
Proof.
  eexists _, _, _. split; [reflexivity|]. split_and!; reflexivity.
Qed.

(** ** Validation of a submission *)

Lemma resolves_truthy (v : option string) : resolves v = true → truthy v = true.
Proof.
  destruct v as [toolId|]; [|discriminate]. simpl. intros H.
  apply bool_decide_eq_true in H. apply negb_true_iff, bool_decide_eq_false.
  intros ->. destruct H as [t H]. vm_compute in H. discriminate.
Qed.

Lemma submit_rejected (rnd : string) (now : Z) (s : AppState) :
  filter (λ img, ImageFile.selected img = true) (images s) = []
  ∨ truthy (selectedTool s) = false →
  handleProcessImages rnd now s = alert validationNotice s.
Proof.
  intros H. unfold handleProcessImages.
  unfold mbind, M_bind, get; simpl.
  assert (bool_decide
            (length (filter (λ img, ImageFile.selected img = true) (images s)) = 0%nat)
          || negb (truthy (selectedTool s)) = true) as ->.
  { destruct H as [-> | ->]; [reflexivity | apply orb_true_r]. }
  reflexivity.
Qed.

(** The guard of [handleProcessImages], in any state: when no image is
    selected, or no tool is chosen ([selectedTool] is [null] or empty),
    the handler shows the validation notice and returns with nothing else
    changed: no record is added to the history, no timer is set, no volume
    is removed from the renderer. *)
Theorem submit_validation (rnd : string) (now : Z) (s : AppState) :
  filter (λ img, ImageFile.selected img = true) (images s) = []
  ∨ truthy (selectedTool s) = false →
  rejected s (handleProcessImages rnd now s).
Proof.
  intros H. rewrite (submit_rejected rnd now s H).
  unfold rejected. unfold_handler. split_and!; reflexivity.
Qed.

Lemma submit_validation_witness :
  rejected initial (handleProcessImages "k3x9q2a" 1000 initial).
Proof. apply submit_validation. left. reflexivity. Defined.

(** The guard tests that a tool id is present, not that it names a
    processing tool: in a state holding an id that the radio group does
    not offer (no session of the controls reaches one), the record is
    created and carries the id as its tool name. *)
Lemma submit_unknown_tool_accepted :
  resolves (selectedTool ready_unknown_tool) = false ∧
  ¬ rejected ready_unknown_tool (handleProcessImages "k3x9q2a" 1000 ready_unknown_tool) ∧
  HistoryItem.toolName
    <$> processingHistory (handleProcessImages "k3x9q2a" 1000 ready_unknown_tool).2
  = ["denoise"].
Proof.
  split_and!; [reflexivity | | reflexivity].
  intros (_ & _ & H & _). vm_compute in H. discriminate.
Qed.

(** ** Toggling the selection *)

Lemma toggle_absent (id : string) (imgs : list ImageFile) :
  id ∉ ImageFile.id <$> imgs → toggle id <$> imgs = imgs.
Proof.
  induction imgs as [|img l IH]; [reflexivity|]. rewrite !fmap_cons.
  intros H. apply not_elem_of_cons in H as [H1 H2].
  rewrite IH by assumption. f_equal. unfold toggle. by rewrite bool_decide_false.
Qed.

(** C7 (as amended): [toggleImageSelection id] flips the [selected] flag
    of the images carrying [id] and leaves every other image, and the
    order, as they were; when no image carries [id] the state is left
    unchanged, and no error is signalled: the handler returns normally and
    shows no notice. *)
Theorem toggle_selection_flips (id : string) (s : AppState) :
  let res := toggleImageSelection id s in
  res.1 = Returned () ∧
  alerts res.2 = alerts s ∧
  (∀ k img, images s !! k = Some img →
     images res.2 !! k
     = Some (if decide (ImageFile.id img = id)
             then ImageFile.mk (ImageFile.id img) (ImageFile.name img)
                    (negb (ImageFile.selected img))
             else img)) ∧
  (id ∉ ImageFile.id <$> images s → res.2 = s) ∧
  processingHistory res.2 = processingHistory s ∧ nv res.2 = nv s.
Proof.
  unfold_handler. split_and!; try reflexivity.
  - intros k img Hk. rewrite list_lookup_fmap, Hk. simpl. unfold toggle.
    case_bool_decide; case_decide; done.
  - intros H. rewrite toggle_absent by assumption. by destruct s.
Qed.

(** C7, as stated, fails: toggling an id that no image carries signals
    nothing. *)
Lemma toggle_absent_signals_nothing :
  ("vol-z" ∉ ImageFile.id <$> images ready) ∧
  ¬ signalled ready (toggleImageSelection "vol-z" ready).
Proof.
  split.
  - vm_compute. intros H. repeat (inversion H as [|? ? ? H']; subst; clear H; rename H' into H).
  - intros [[e H] | H]; [discriminate | by apply H].
Qed.

(** ** Viewing a result *)

(** C8: for a record whose result is present and whose
    [imageOptionsArray] has length 0, [handleViewResult] ends by showing
    the empty-result notice and returns; the renderer is not touched, so
    no [loadVolumes] call is issued, and neither the registry nor the
    history changes. *)
Theorem view_empty_result_no_load
    (item : ProcessingHistoryItem) (fetched : list NVImage)
    (result : NVDocument) (optionsArray : list ImageOptions) (s : AppState) :
  HistoryItem.result item = Some result →
  imageOptionsArray (data result) = Some optionsArray →
  length optionsArray = 0%nat →
  let res := handleViewResult item fetched s in
  res.1 = Returned () ∧
  last (alerts res.2) = Some emptyResultNotice ∧
  nv res.2 = nv s ∧
  (∀ arr, LoadVolumes arr ∈ calls (nv res.2) → LoadVolumes arr ∈ calls (nv s)) ∧
  images res.2 = images s ∧
  processingHistory res.2 = processingHistory s.
Proof.
  intros Hres Harr Hlen. unfold handleViewResult.
  unfold mbind, M_bind, get, nvRef_current; simpl. rewrite Hres.
  destruct (truthy (HistoryItem.error item)); unfold_handler;
    rewrite Harr, Hlen; simpl; split_and!;
    try reflexivity; try apply last_snoc; auto.
Qed.

Lemma view_empty_result_no_load_witness :
  ∃ item, processingHistory settled !! 0%nat = Some item ∧
          HistoryItem.status item = completed ∧
          calls (nv (handleViewResult item [volA] settled).2) = calls (nv settled) ∧
          last (alerts (handleViewResult item [volA] settled).2) = Some emptyResultNotice.
Proof.
  exists settledItem. split; [reflexivity|]. split; [reflexivity|].
  destruct (view_empty_result_no_load settledItem [volA] emptyResult [] settled)
    as (_ & Hlast & Hnv & _); [reflexivity | reflexivity | reflexivity |].
  split; [by rewrite Hnv | exact Hlast].
Defined.

(** ** Submission and the image registry *)

Lemma with_nv_with_nv (r r' : Niivue) (s : AppState) :
  with_nv r (with_nv r' s) = with_nv r s.
Proof. reflexivity. Qed.

Lemma with_nv_same (s : AppState) : with_nv (nv s) s = s.
Proof. by destruct s. Qed.

(** A loop of renderer calls touches nothing but the renderer, whether
    it runs to its end or is cut short. *)
Lemma forEach_nvCall_frame {A} (xs : list A) (g : A → Niivue → thrown + Niivue)
    (s : AppState) :
  ∃ r, (forEach xs (λ x, nvCall (g x)) s).2 = with_nv r s.
Proof.
  revert s. induction xs as [|x xs IH]; intros s.
  - exists (nv s). simpl. by rewrite with_nv_same.
  - simpl. unfold mbind, M_bind, nvCall. destruct (g x (nv s)) as [e|r1].
    + exists (nv s). simpl. by rewrite with_nv_same.
    + destruct (IH (with_nv r1 s)) as [r Hr]. exists r.
      fold (@nvCall) in *. unfold nvCall in Hr. rewrite Hr. apply with_nv_with_nv.
Qed.

Lemma kept_snoc (imgs : list ImageFile) (vs : list NVImage) x v :
  length vs = length imgs →
  kept (imgs ++ [x]) (vs ++ [v])
  = kept imgs vs ++ (if ImageFile.selected x then [v] else []).
Proof.
  intros Hlen. unfold kept. rewrite zip_with_app by done.
  rewrite filter_app, fmap_app. f_equal. simpl. rewrite filter_cons. simpl.
  destruct (ImageFile.selected x); by case_decide.
Qed.

Lemma pruned_snoc (imgs : list ImageFile) x :
  pruned (imgs ++ [x])
  = (if ImageFile.selected x then [] else [(x, length imgs)]) ++ pruned imgs.
Proof.
  unfold pruned. rewrite imap_app, filter_app, reverse_app. f_equal.
  simpl. rewrite Nat.add_0_r, filter_cons. simpl.
  destruct (ImageFile.selected x); by case_decide.
Qed.

(** Removing the unselected positions from the highest down leaves the
    volumes of the selected images, in order, and whatever follows them. *)
Lemma prune_descending (imgs : list ImageFile) :
  ∀ (vs tail : list NVImage) (s : AppState),
    length vs = length imgs →
    volumes (nv s) = vs ++ tail →
    forEach (pruned imgs) (λ p, nvCall (removeVolumeByIndex (Z.of_nat p.2))) s
    = (Returned (),
       with_nv {| volumes := kept imgs vs ++ tail;
                  calls := calls (nv s)
                           ++ ((λ p, RemoveVolumeByIndex (Z.of_nat p.2)) <$> pruned imgs) |}
         s).
Proof.
  induction imgs as [|x imgs IH] using rev_ind; intros vs tail s Hlen Hvs.
  - destruct vs; [|discriminate]. simpl in *. unfold mret, M_ret.
    rewrite app_nil_r, <- Hvs. f_equal. destruct s as [? ? ? ? [] ? ?]. reflexivity.
  - destruct vs as [|v vs _] using rev_ind.
    { rewrite length_app in Hlen. simpl in Hlen. lia. }
    rewrite !length_app in Hlen. simpl in Hlen.
    assert (length vs = length imgs) as Hlen' by lia.
    rewrite pruned_snoc, kept_snoc by done.
    rewrite <- !app_assoc in *. simpl in Hvs.
    destruct (ImageFile.selected x); simpl.
    + rewrite (IH vs (v :: tail) s) by done. reflexivity.
    + unfold mbind, M_bind. unfold nvCall at 1. unfold removeVolumeByIndex, volume_at.
      rewrite decide_True by lia. rewrite Nat2Z.id, Hvs, <- Hlen'.
      rewrite list_lookup_middle by done. rewrite delete_middle.
      rewrite (IH vs tail) by done. simpl. rewrite <- app_assoc. reflexivity.
Qed.

Lemma kept_ids (imgs : list ImageFile) :
  ∀ vs : list NVImage,
    NVImage.id <$> vs = ImageFile.id <$> imgs →
    NVImage.id <$> kept imgs vs
    = ImageFile.id <$> filter (λ img, ImageFile.selected img = true) imgs.
Proof.
  induction imgs as [|x imgs IH]; intros [|v vs] H; try done.
  rewrite !fmap_cons in H. injection H as Hid Hrest.
  unfold kept in *. simpl. rewrite !filter_cons. simpl.
  case_decide; simpl; [rewrite Hid; f_equal|]; by apply IH.
Qed.

Lemma getVolumeIndexByID_absent (id : string) (r : Niivue) :
  id ∉ NVImage.id <$> volumes r → getVolumeIndexByID id r = -1.
Proof.
  intros H. unfold getVolumeIndexByID.
  destruct (list_find _ _) as [[i v]|] eqn:E; [|reflexivity].
  apply list_find_Some in E as (Hi & Hv & _). exfalso. apply H.
  rewrite <- Hv. apply list_elem_of_fmap_2. by eapply list_elem_of_lookup_2.
Qed.

Lemma unselected_id_not_kept (imgs : list ImageFile) (img : ImageFile) :
  NoDup (ImageFile.id <$> imgs) → img ∈ imgs → ImageFile.selected img = false →
  ImageFile.id img ∉ ImageFile.id <$> filter (λ x, ImageFile.selected x = true) imgs.
Proof.
  intros Hnd Hin Hsel Hmem.
  apply list_elem_of_fmap in Hmem as (img' & Hid & Hin').
  apply list_elem_of_filter in Hin' as [Hsel' Hin'].
  apply list_elem_of_lookup in Hin as [i Hi]. apply list_elem_of_lookup in Hin' as [j Hj].
  assert (i = j) as ->.
  { eapply NoDup_lookup; [exact Hnd | |]; rewrite list_lookup_fmap.
    - by rewrite Hi.
    - rewrite Hj. simpl. by rewrite Hid. }
  congruence.
Qed.

Lemma accepts_guard (s : AppState) :
  accepts s →
  bool_decide (length (filter (λ img, ImageFile.selected img = true) (images s)) = 0%nat)
  || negb (truthy (selectedTool s)) = false.
Proof.
  intros [Hsel Htool]. rewrite Htool. simpl. rewrite orb_false_r.
  apply bool_decide_eq_false. intros H. by apply nil_length_inv in H.
Qed.

(** An accepted submission runs the loop over the unselected positions
    first; if the loop is cut short the handler raises with only the
    renderer changed, otherwise a pending record is put at the head of the
    history and its timer is set. *)
Lemma submit_accepted_eq (rnd : string) (now : Z) (s : AppState) :
  accepts s →
  handleProcessImages rnd now s
  = match forEach (pruned (images s))
            (λ p, nvCall (removeVolumeByIndex (Z.of_nat p.2))) s with
    | (Returned _, s1) =>
        (Returned (),
         {| images := images s1; currentImageIndex := currentImageIndex s1;
            selectedTool := selectedTool s1;
            processingHistory := newItem rnd now s (nv s1) :: processingHistory s1;
            nv := nv s1; alerts := alerts s1; timers := timers s1 ++ [rnd] |})
    | (Threw e, s1) => (Threw e, s1)
    end.
Proof.
  intros Hacc. unfold handleProcessImages.
  unfold mbind at 1, M_bind at 1, get at 1. cbv beta iota.
  rewrite (accepts_guard s Hacc). unfold nvRef_current. cbv beta iota.
  fold (pruned (images s)).
  unfold mbind at 1, M_bind at 1.
  destruct (forEach (pruned (images s)) _ s) as [[[]|e] s1]; reflexivity.
Qed.

Lemma submit_accepted_shape (rnd : string) (now : Z) (s : AppState) :
  accepts s →
  ∃ r, (∃ e, handleProcessImages rnd now s = (Threw e, with_nv r s)) ∨
       (forEach (pruned (images s))
          (λ p, nvCall (removeVolumeByIndex (Z.of_nat p.2))) s
        = (Returned (), with_nv r s) ∧
        handleProcessImages rnd now s
        = (Returned (),
           {| images := images s; currentImageIndex := currentImageIndex s;
              selectedTool := selectedTool s;
              processingHistory := newItem rnd now s r :: processingHistory s;
              nv := r; alerts := alerts s; timers := timers s ++ [rnd] |})).
Proof.
  intros Hacc. rewrite (submit_accepted_eq rnd now s Hacc).
  destruct (forEach_nvCall_frame (pruned (images s))
              (λ p, removeVolumeByIndex (Z.of_nat p.2)) s) as [r Hr].
  destruct (forEach (pruned (images s)) _ s) as [[[]|e] s1] eqn:E; simpl in Hr; subst s1.
  - exists r. right. split; reflexivity.
  - exists r. left. by exists e.
Qed.

Lemma submit_rejected_or_accepted (s : AppState) :
  accepts s ∨ (filter (λ img, ImageFile.selected img = true) (images s) = []
               ∨ truthy (selectedTool s) = false).
Proof.
  unfold accepts.
  destruct (filter _ (images s)); [by right; left|].
  destruct (truthy (selectedTool s)); [by left | by right; right].
Qed.

(** C10: [handleProcessImages] never changes the image registry: after
    any submission the images are the same entries in the same order, with
    ids, names and selection flags as before.  When the submission passes
    validation and the renderer holds one volume per registry image, in
    registry order, the handler returns normally, the renderer is left with
    the volumes of the selected images only, the new record's snapshot is
    taken from that pruned renderer, and (registry ids being distinct)
    every unselected image is still listed in the registry although its id
    no longer resolves to a renderer volume. *)
Theorem submit_keeps_registry (rnd : string) (now : Z) (s : AppState) :
  let res := handleProcessImages rnd now s in
  images res.2 = images s ∧
  (accepts s →
   NVImage.id <$> volumes (nv s) = ImageFile.id <$> images s →
   res.1 = Returned () ∧
   volumes (nv res.2) = kept (images s) (volumes (nv s)) ∧
   NVImage.id <$> volumes (nv res.2)
   = ImageFile.id <$> filter (λ img, ImageFile.selected img = true) (images s) ∧
   processingHistory res.2 = newItem rnd now s (nv res.2) :: processingHistory s ∧
   (NoDup (ImageFile.id <$> images s) →
    ∀ img, img ∈ images s → ImageFile.selected img = false →
           img ∈ images res.2 ∧ getVolumeIndexByID (ImageFile.id img) (nv res.2) = -1)).
Proof.
  simpl. split.
  - destruct (submit_rejected_or_accepted s) as [Hacc | Hrej].
    + destruct (submit_accepted_shape rnd now s Hacc) as [r [[e ->] | [_ ->]]]; reflexivity.
    + by rewrite (submit_rejected rnd now s Hrej).
  - intros Hacc Hsync.
    assert (length (volumes (nv s)) = length (images s)) as Hlen.
    { by rewrite <- (length_fmap NVImage.id), Hsync, length_fmap. }
    pose proof (prune_descending (images s) (volumes (nv s)) [] s Hlen) as Hprune.
    rewrite !app_nil_r in Hprune. specialize (Hprune eq_refl).
    rewrite (submit_accepted_eq rnd now s Hacc), Hprune. simpl.
    assert (NVImage.id <$> kept (images s) (volumes (nv s))
            = ImageFile.id <$> filter (λ img, ImageFile.selected img = true) (images s))
      as Hids by by apply kept_ids.
    split_and!; try done.
    intros Hnd img Hin Hsel. split; [done|].
    apply getVolumeIndexByID_absent. simpl. rewrite Hids.
    by apply unselected_id_not_kept.
Qed.

Lemma submit_keeps_registry_witness :
  ImageFile.id <$> images (handleProcessImages "k3x9q2a" 1000 ready).2 = ["vol-a"; "vol-b"] ∧
  NVImage.id <$> volumes (nv (handleProcessImages "k3x9q2a" 1000 ready).2) = ["vol-b"] ∧
  getVolumeIndexByID "vol-a" (nv (handleProcessImages "k3x9q2a" 1000 ready).2) = -1.
Proof.
  destruct (submit_keeps_registry "k3x9q2a" 1000 ready) as [Himgs Hrest].
  destruct Hrest as (_ & _ & Hids & _ & Hgone).
  - split; [discriminate | reflexivity].
  - reflexivity.
  - split; [by rewrite Himgs|]. split; [by rewrite Hids|].
    assert (NoDup (ImageFile.id <$> images ready)) as Hnd.
    { apply (bool_decide_unpack (NoDup (ImageFile.id <$> images ready))).
      vm_compute. exact I. }
    apply (Hgone Hnd (ImageFile.mk "vol-a" "A.nii" false)); [|reflexivity].
    by apply (list_elem_of_lookup_2 _ 0%nat).
Defined.

(** ** Making an image the active one *)

Lemma assign_cons (v : NVImage) (vs : list NVImage) (id : string) (o : Z) :
  assign (v :: vs) id o
  = if decide (NVImage.id v = id) then with_opacity o v :: vs else v :: assign vs id o.
Proof.
  unfold assign. simpl. case_decide; [reflexivity|].
  by destruct (list_find _ vs) as [[n w]|].
Qed.

Lemma opacity_in_cons (v : NVImage) (vs : list NVImage) (id : string) :
  opacity_in (v :: vs) id
  = if decide (NVImage.id v = id) then Some (NVImage.opacity v) else opacity_in vs id.
Proof.
  unfold opacity_in. simpl. case_decide; [reflexivity|].
  by destruct (list_find _ vs) as [[n w]|].
Qed.

Lemma assign_ids (vs : list NVImage) (id : string) (o : Z) :
  NVImage.id <$> assign vs id o = NVImage.id <$> vs.
Proof.
  induction vs as [|v vs IH]; [reflexivity|].
  rewrite assign_cons. case_decide; rewrite !fmap_cons; [reflexivity | by rewrite IH].
Qed.

Lemma opacity_in_assign (vs : list NVImage) (id : string) (o : Z) :
  id ∈ NVImage.id <$> vs → opacity_in (assign vs id o) id = Some o.
Proof.
  induction vs as [|v vs IH]; rewrite ?fmap_cons; intros H.
  - by apply elem_of_nil in H.
  - rewrite assign_cons. case_decide as Hv; rewrite opacity_in_cons; simpl.
    + by rewrite decide_True.
    + rewrite decide_False by done. apply IH.
      apply elem_of_cons in H as [H1|H2]; [congruence | done].
Qed.

Lemma opacity_in_assign_other (vs : list NVImage) (id id' : string) (o : Z) :
  id' ≠ id → opacity_in (assign vs id o) id' = opacity_in vs id'.
Proof.
  intros Hne. induction vs as [|v vs IH]; [reflexivity|].
  rewrite assign_cons. case_decide as Hv; rewrite !opacity_in_cons; simpl.
  - rewrite !decide_False by congruence. reflexivity.
  - case_decide; [reflexivity | apply IH].
Qed.

Lemma assign_same (vs : list NVImage) (id : string) (o : Z) :
  opacity_in vs id = Some o → assign vs id o = vs.
Proof.
  induction vs as [|v vs IH]; [reflexivity|].
  rewrite assign_cons, opacity_in_cons. case_decide as Hv; intros Ho.
  - injection Ho as <-. by destruct v.
  - by rewrite IH.
Qed.

Lemma opacity_of_in (id : string) (r : Niivue) :
  opacity_of id r = opacity_in (volumes r) id.
Proof.
  unfold opacity_of, opacity_in, getVolumeIndexByID, volume_at.
  destruct (list_find _ _) as [[n v]|] eqn:E; simpl.
  - apply list_find_Some in E as (Hn & _). rewrite decide_True by lia.
    by rewrite Nat2Z.id, Hn.
  - reflexivity.
Qed.

Lemma setOpacity_resolved (id : string) (o : Z) (r : Niivue) :
  id ∈ NVImage.id <$> volumes r →
  setOpacity (getVolumeIndexByID id r) o r
  = inr (served (SetOpacity (getVolumeIndexByID id r) o) (assign (volumes r) id o) r).
Proof.
  intros H. unfold setOpacity, assign, getVolumeIndexByID, volume_at.
  destruct (list_find _ _) as [[n v]|] eqn:E.
  - apply list_find_Some in E as (Hn & _). rewrite decide_True by lia.
    by rewrite Nat2Z.id, Hn.
  - exfalso. apply list_elem_of_fmap in H as (v & Hid & Hv). subst id.
    apply list_find_None in E. rewrite Forall_forall in E. by apply (E v).
Qed.

Lemma getVolumeIndexByID_ids (id : string) (r r' : Niivue) :
  NVImage.id <$> volumes r = NVImage.id <$> volumes r' →
  getVolumeIndexByID id r = getVolumeIndexByID id r'.
Proof.
  unfold getVolumeIndexByID. generalize (volumes r) (volumes r'). clear r r'.
  assert (∀ vs vs' : list NVImage,
            NVImage.id <$> vs = NVImage.id <$> vs' →
            fst <$> list_find (λ v, NVImage.id v = id) vs
            = fst <$> list_find (λ v, NVImage.id v = id) vs') as Hfind.
  { induction vs as [|v vs IH]; intros [|v' vs'] H; try done.
    rewrite !fmap_cons in H. injection H as Hv Hrest. simpl.
    rewrite <- Hv. case_decide; [reflexivity|].
    specialize (IH vs' Hrest).
    destruct (list_find _ vs) as [[n w]|], (list_find _ vs') as [[n' w']|];
      simpl in *; congruence. }
  intros vs vs' H. specialize (Hfind vs vs' H).
  destruct (list_find _ vs) as [[n w]|], (list_find _ vs') as [[n' w']|];
    simpl in *; congruence.
Qed.

Lemma visibilityCallback_eq (id : nat) (p : ImageFile * nat) (s : AppState) :
  visibilityCallback id p s
  = nvCall (setOpacity (getVolumeIndexByID (ImageFile.id p.1) (nv s)) (target id p.2)) s.
Proof.
  unfold visibilityCallback, target, mbind, M_bind, get. by case_bool_decide.
Qed.

(** While every image id resolves, the loop of [handleVisibility] runs to
    its end: it assigns the opacities one image after the other and the
    renderer serves one [setOpacity] per image. *)
Lemma visibility_loop (id : nat) (L : list (ImageFile * nat)) :
  ∀ s : AppState,
    (∀ p, p ∈ L → ImageFile.id p.1 ∈ NVImage.id <$> volumes (nv s)) →
    forEach L (visibilityCallback id) s
    = (Returned (),
       with_nv
         {| volumes := foldl (λ vs p, assign vs (ImageFile.id p.1) (target id p.2))
                         (volumes (nv s)) L;
            calls := calls (nv s)
                     ++ ((λ p, SetOpacity (getVolumeIndexByID (ImageFile.id p.1) (nv s))
                                 (target id p.2)) <$> L) |}
         s).
Proof.
  induction L as [|p L IH]; intros s Hres.
  - simpl. unfold mret, M_ret. rewrite app_nil_r. f_equal.
    destruct s as [? ? ? ? [] ? ?]. reflexivity.
  - simpl. unfold mbind, M_bind. rewrite visibilityCallback_eq. unfold nvCall at 1.
    rewrite setOpacity_resolved by (apply Hres; left).
    rewrite IH.
    + rewrite with_nv_with_nv. simpl. rewrite <- app_assoc. simpl.
      erewrite (list_fmap_ext _ _ L); [reflexivity|].
      intros _ q _. simpl. f_equal.
      apply getVolumeIndexByID_ids. simpl. apply assign_ids.
    + intros q Hq. simpl. rewrite assign_ids. apply Hres. by right.
Qed.

Lemma foldl_assign_ids (id : nat) (L : list (ImageFile * nat)) (vs : list NVImage) :
  NVImage.id <$> foldl (λ vs p, assign vs (ImageFile.id p.1) (target id p.2)) vs L
  = NVImage.id <$> vs.
Proof.
  revert vs. induction L as [|p L IH]; intros vs; [reflexivity|].
  simpl. rewrite IH. apply assign_ids.
Qed.

Lemma foldl_assign_other (id : nat) (L : list (ImageFile * nat)) (vs : list NVImage) x :
  x ∉ (λ p, ImageFile.id p.1) <$> L →
  opacity_in (foldl (λ vs p, assign vs (ImageFile.id p.1) (target id p.2)) vs L) x
  = opacity_in vs x.
Proof.
  revert vs. induction L as [|p L IH]; intros vs Hx; [reflexivity|].
  rewrite fmap_cons in Hx. apply not_elem_of_cons in Hx as [Hp HL].
  simpl. rewrite IH by done. by apply opacity_in_assign_other.
Qed.

Lemma foldl_assign_opacity (id : nat) (L : list (ImageFile * nat)) :
  ∀ vs : list NVImage,
    NoDup ((λ p, ImageFile.id p.1) <$> L) →
    (∀ p, p ∈ L → ImageFile.id p.1 ∈ NVImage.id <$> vs) →
    ∀ p, p ∈ L →
         opacity_in (foldl (λ vs p, assign vs (ImageFile.id p.1) (target id p.2)) vs L)
           (ImageFile.id p.1)
         = Some (target id p.2).
Proof.
  induction L as [|q L IH]; intros vs Hnd Hres p Hp.
  - by apply elem_of_nil in Hp.
  - rewrite fmap_cons in Hnd. apply NoDup_cons in Hnd as [Hq Hnd].
    simpl. apply elem_of_cons in Hp as [-> | Hp].
    + rewrite foldl_assign_other by done.
      apply opacity_in_assign. apply Hres. by left.
    + apply IH; [done | | done].
      intros p' Hp'. rewrite assign_ids. apply Hres. by right.
Qed.

Lemma foldl_assign_settled (id : nat) (vs : list NVImage) (L : list (ImageFile * nat)) :
  (∀ p, p ∈ L → opacity_in vs (ImageFile.id p.1) = Some (target id p.2)) →
  foldl (λ vs p, assign vs (ImageFile.id p.1) (target id p.2)) vs L = vs.
Proof.
  induction L as [|q L IH]; intros H; [reflexivity|].
  simpl. rewrite assign_same by (apply H; left). apply IH.
  intros p Hp. apply H. by right.
Qed.

Lemma imap_pair_ids (imgs : list ImageFile) :
  (λ p : ImageFile * nat, ImageFile.id p.1) <$> imap (λ index img, (img, index)) imgs
  = ImageFile.id <$> imgs.
Proof.
  rewrite fmap_imap. rewrite <- (imap_const ImageFile.id). by apply imap_ext.
Qed.

Lemma elem_of_imap_pair (imgs : list ImageFile) (p : ImageFile * nat) :
  p ∈ imap (λ index img, (img, index)) imgs ↔ imgs !! p.2 = Some p.1.
Proof.
  rewrite list_elem_of_lookup. split.
  - intros [k Hk]. rewrite list_lookup_imap in Hk.
    destruct (imgs !! k) as [img|] eqn:E; [|done]. simpl in Hk.
    injection Hk as <-. done.
  - intros H. exists p.2. rewrite list_lookup_imap, H. by destruct p.
Qed.

Lemma handleVisibility_eq (id : nat) (s : AppState) :
  (∀ img, img ∈ images s → ImageFile.id img ∈ NVImage.id <$> volumes (nv s)) →
  handleVisibility id s
  = (Returned (),
     {| images := images s; currentImageIndex := Some id;
        selectedTool := selectedTool s; processingHistory := processingHistory s;
        nv := {| volumes :=
                   foldl (λ vs p, assign vs (ImageFile.id p.1) (target id p.2))
                     (volumes (nv s)) (imap (λ index img, (img, index)) (images s));
                 calls := calls (nv s) ++ opacity_calls id s ++ [UpdateGLVolume] |};
        alerts := alerts s; timers := timers s |}).
Proof.
  intros Hres. unfold handleVisibility.
  unfold mbind at 1 2, M_bind at 1 2, get, setCurrentImageIndex, modify. cbv beta iota.
  unfold mbind, M_bind. rewrite visibility_loop.
  - unfold nvCall, updateGLVolume, served, with_nv, opacity_calls. simpl.
    rewrite <- app_assoc. rewrite fmap_imap. reflexivity.
  - intros p Hp. simpl. apply Hres. apply elem_of_imap_pair in Hp.
    by eapply list_elem_of_lookup_2.
Qed.

Lemma handleVisibility_made_active (id : nat) (s : AppState) :
  NoDup (ImageFile.id <$> images s) →
  (∀ img, img ∈ images s → ImageFile.id img ∈ NVImage.id <$> volumes (nv s)) →
  made_active id s (handleVisibility id s).
Proof.
  intros Hnd Hres. rewrite handleVisibility_eq by done.
  unfold made_active. simpl. split_and!; try reflexivity.
  intros k img Hk. rewrite opacity_of_in. simpl.
  apply (foldl_assign_opacity id _ _
           ltac:(by rewrite imap_pair_ids)
           ltac:(intros p Hp; apply Hres; apply elem_of_imap_pair in Hp;
                 by eapply list_elem_of_lookup_2)
           (img, k)).
  by apply elem_of_imap_pair.
Qed.

(** X21: when the registry ids are pairwise distinct and every
    registry image's id resolves to a volume of the renderer,
    [handleVisibility i] returns normally with the cursor set to [i]; the
    volume of the image at position [i] has opacity 1 and the volume of
    every other image opacity 0, each handle having been resolved from the
    image's id; the renderer served one [setOpacity] per image and then a
    single redraw.  Calling it again with the same index succeeds in the
    same way and leaves the volumes as they are. *)
Theorem set_active_shows_only_one (i : nat) (s : AppState) :
  NoDup (ImageFile.id <$> images s) →
  (∀ img, img ∈ images s → ImageFile.id img ∈ NVImage.id <$> volumes (nv s)) →
  made_active i s (handleVisibility i s) ∧
  made_active i (handleVisibility i s).2 (handleVisibility i (handleVisibility i s).2) ∧
  volumes (nv (handleVisibility i (handleVisibility i s).2).2)
  = volumes (nv (handleVisibility i s).2).
Proof.
  intros Hnd Hres.
  pose proof (handleVisibility_made_active i s Hnd Hres) as Hfirst.
  split; [exact Hfirst|].
  destruct Hfirst as (_ & _ & Hop & _ & Himgs & _).
  rewrite handleVisibility_eq in * by done. simpl in *.
  set (s' := {| images := images s; currentImageIndex := Some i;
                selectedTool := selectedTool s;
                processingHistory := processingHistory s;
                nv := _; alerts := alerts s; timers := timers s |}) in *.
  assert (∀ img, img ∈ images s' → ImageFile.id img ∈ NVImage.id <$> volumes (nv s'))
    as Hres'.
  { intros img Himg. simpl. rewrite foldl_assign_ids. by apply Hres. }
  split; [by apply handleVisibility_made_active|].
  rewrite handleVisibility_eq by done. simpl.
  apply foldl_assign_settled. intros p Hp. apply elem_of_imap_pair in Hp.
  specialize (Hop p.2 p.1 Hp). by rewrite opacity_of_in in Hop.
Qed.

Lemma set_active_shows_only_one_witness :
  made_active 1 ready (handleVisibility 1 ready).
Proof.
  apply (set_active_shows_only_one 1 ready).
  - apply (bool_decide_unpack (NoDup (ImageFile.id <$> images ready))).
    vm_compute. exact I.
  - intros img Himg. vm_compute in Himg.
    apply elem_of_cons in Himg as [-> | Himg]; [by apply (list_elem_of_lookup_2 _ 0%nat)|].
    apply elem_of_cons in Himg as [-> | Himg]; [by apply (list_elem_of_lookup_2 _ 1%nat)|].
    by apply elem_of_nil in Himg.
Defined.

(** After a submission that left image 0 unselected, the registry still
    lists two images and 0 is a valid index, but image 0 has no volume in
    the renderer any more: making it active raises at its [setOpacity] and
    no volume ends up with opacity 1 for it. *)
Lemma set_active_fails_after_pruning :
  ImageFile.id <$> images submitted = ["vol-a"; "vol-b"] ∧
  NVImage.id <$> volumes (nv submitted) = ["vol-b"] ∧
  getVolumeIndexByID "vol-a" (nv submitted) = -1 ∧
  (∃ e, (handleVisibility 0 submitted).1 = Threw e) ∧
  opacity_of "vol-a" (nv (handleVisibility 0 submitted).2) = None ∧
  ¬ made_active 0 submitted (handleVisibility 0 submitted).
Proof.
  split_and!; try reflexivity; [by eexists|].
  intros (_ & _ & H & _). specialize (H 0%nat _ eq_refl). discriminate H.
Qed.

(** C9: the handler evaluated where the claim breaks.  After the session
    that drops two files, ticks the second one, chooses a tool and
    submits, the registry still lists both images while the renderer holds
    the second volume only; [handleVisibility i] then raises for every
    index [i], at the [setOpacity] of image 0, whose id resolves to [-1]:
    the cursor is set, but no opacity is assigned and no redraw is
    triggered. *)
Theorem set_active_raises_after_pruning (i : nat) :
  ImageFile.id <$> images submitted = ["vol-a"; "vol-b"] ∧
  NVImage.id <$> volumes (nv submitted) = ["vol-b"] ∧
  (handleVisibility i submitted).1
  = Threw (ErrorObject "Cannot set properties of undefined (setting 'opacity')") ∧
  currentImageIndex (handleVisibility i submitted).2 = Some i ∧
  nv (handleVisibility i submitted).2 = nv submitted ∧
  ¬ made_active i submitted (handleVisibility i submitted).
Proof.
  assert ((handleVisibility i submitted).1
          = Threw (ErrorObject "Cannot set properties of undefined (setting 'opacity')")
          ∧ currentImageIndex (handleVisibility i submitted).2 = Some i
          ∧ nv (handleVisibility i submitted).2 = nv submitted) as (H1 & H2 & H3).
  { destruct i; split_and!; reflexivity. }
  split_and!; try reflexivity; try done.
  intros [H _]. rewrite H1 in H. discriminate H.
Qed.


(** ** Sessions: what an event does to the history and the timers *)

Lemma forEach_jobs {A} (xs : list A) (f : A → M unit) :
  (∀ x s, processingHistory (f x s).2 = processingHistory s
          ∧ timers (f x s).2 = timers s) →
  ∀ s, processingHistory (forEach xs f s).2 = processingHistory s
       ∧ timers (forEach xs f s).2 = timers s.
Proof.
  intros Hf. induction xs as [|x xs IH]; intros s; [done|].
  simpl. unfold mbind, M_bind. specialize (Hf x s).
  destruct (f x s) as [[[]|e] s1]; simpl in Hf; [|done].
  destruct (IH s1) as [-> ->]. done.
Qed.

(** An event leaves the timers alone and the history as it was or
    shortened, or it is an accepted submission, or it is a timer callback
    running to its end. *)
Lemma step_jobs (ev : event) (s : AppState) :
  (processingHistory (step ev s) `sublist_of` processingHistory s
   ∧ timers (step ev s) = timers s)
  ∨ (∃ rnd now r,
       ev = ProcessImages rnd now
       ∧ processingHistory (step ev s) = newItem rnd now s r :: processingHistory s
       ∧ timers (step ev s) = timers s ++ [rnd])
  ∨ (∃ k r jobId,
       ev = TimerFires k r ∧ timers s !! k = Some jobId
       ∧ timers (step ev s) = delete k (timers s)
       ∧ processingHistory (step ev s)
         = resolve_update jobId (try_block r) (processingHistory s)).
Proof.
  unfold step. destruct ev as [files|nvimage|id|value|rnd now|k r|item fetched|id|c|index];
    simpl.
  - left. unfold_handler. by case_match.
  - left. by unfold_handler.
  - left. by unfold_handler.
  - left. by unfold_handler.
  - destruct (submit_rejected_or_accepted s) as [Hacc | Hrej].
    + destruct (submit_accepted_shape rnd now s Hacc) as [r [[e ->] | [_ ->]]].
      * by left.
      * right. left. by exists rnd, now, r.
    + rewrite (submit_rejected rnd now s Hrej). by left.
  - destruct (timers s !! k) as [jobId|] eqn:E.
    + right. right. exists k, r, jobId. unfold_handler. by rewrite E.
    + left. unfold_handler. by rewrite E.
  - left. unfold_handler. repeat case_match; simplify_eq/=; done.
  - left. unfold_handler. split; [apply sublist_filter | done].
  - left. destruct c; unfold_handler; split; done || apply sublist_nil_l.
  - left. unfold handleVisibility.
    unfold mbind at 1 2, M_bind at 1 2, get, setCurrentImageIndex, modify. cbv beta iota.
    unfold mbind, M_bind.
    match goal with |- context [forEach ?L ?f ?s0] =>
      pose proof (forEach_jobs L f
        ltac:(intros x s1; rewrite visibilityCallback_eq; unfold nvCall;
              by case_match) s0) as [H1 H2];
      destruct (forEach L f s0) as [[[]|e] s1]
    end; simpl in *; rewrite <- ?H1, <- ?H2; by unfold_handler.
Qed.

Lemma submit_history (rnd : string) (now : Z) (s : AppState) :
  processingHistory (step (ProcessImages rnd now) s) = processingHistory s
  ∨ ∃ r, processingHistory (step (ProcessImages rnd now) s)
         = newItem rnd now s r :: processingHistory s.
Proof.
  unfold step. simpl.
  destruct (submit_rejected_or_accepted s) as [Hacc | Hrej].
  - destruct (submit_accepted_shape rnd now s Hacc) as [r [[e ->] | [_ ->]]].
    + by left.
    + right. by exists r.
  - rewrite (submit_rejected rnd now s Hrej). by left.
Qed.

Lemma created_cases (ev : event) (s : AppState) :
  created ev s = []
  ∨ ∃ rnd now r, ev = ProcessImages rnd now ∧ created ev s = [newItem rnd now s r].
Proof.
  destruct ev as [| | | |rnd now| | | | |]; try by left.
  unfold created. destruct (submit_history rnd now s) as [-> | [r ->]].
  - left. by rewrite Nat.sub_diag.
  - right. exists rnd, now, r. split; [done|]. simpl.
    replace (S (length (processingHistory s)) - length (processingHistory s))%nat
      with 1%nat by lia.
    reflexivity.
Qed.

Lemma drawn_cons (ev : event) (evs : list event) :
  drawn (ev :: evs) = drawn [ev] ++ drawn evs.
Proof. unfold drawn. simpl. by destruct ev. Qed.

Lemma drawn_app (evs1 evs2 : list event) :
  drawn (evs1 ++ evs2) = drawn evs1 ++ drawn evs2.
Proof. apply omap_app. Qed.

(** The ids of the records created are among the texts drawn, in the
    same order. *)
Lemma created_ids_drawn (evs : list event) :
  ∀ s, HistoryItem.id <$> records_created evs s `sublist_of` drawn evs.
Proof.
  induction evs as [|ev evs IH]; intros s; [done|].
  rewrite drawn_cons. simpl. rewrite fmap_app. apply sublist_app; [|apply IH].
  destruct (created_cases ev s) as [-> | (rnd & now & r & -> & ->)].
  - apply sublist_nil_l.
  - done.
Qed.

Lemma created_pending (evs : list event) :
  ∀ s item, item ∈ records_created evs s →
            HistoryItem.status item = pending
            ∧ HistoryItem.result item = None ∧ HistoryItem.error item = None.
Proof.
  induction evs as [|ev evs IH]; intros s item Hin; simpl in Hin.
  - by apply elem_of_nil in Hin.
  - apply elem_of_app in Hin as [Hin | Hin]; [|by eapply IH].
    destruct (created_cases ev s) as [E | (rnd & now & r & _ & E)];
      rewrite E in Hin.
    + by apply elem_of_nil in Hin.
    + apply list_elem_of_singleton in Hin as ->. done.
Qed.

(** ** Uniqueness of record ids *)

(** C6 (as amended): the ids of the records created in a session are
    pairwise distinct whenever the texts drawn from [Math.random] for its
    submissions are pairwise distinct; creation itself checks nothing. *)
Theorem created_ids_distinct (evs : list event) (s : AppState) :
  NoDup (drawn evs) → NoDup (HistoryItem.id <$> records_created evs s).
Proof. intros H. eapply sublist_NoDup; [exact H | apply created_ids_drawn]. Qed.

Lemma created_ids_distinct_witness :
  HistoryItem.id
    <$> records_created [ProcessImages "k3x9q2a" 1000; ProcessImages "p07zzm1" 2000] ready_all
  = ["k3x9q2a"; "p07zzm1"]
  ∧ NoDup (HistoryItem.id
             <$> records_created [ProcessImages "k3x9q2a" 1000; ProcessImages "p07zzm1" 2000]
                   ready_all).
Proof.
  split; [reflexivity|]. apply created_ids_distinct.
  apply (bool_decide_unpack (NoDup (drawn [ProcessImages "k3x9q2a" 1000;
                                           ProcessImages "p07zzm1" 2000]))).
  vm_compute. exact I.
Defined.

(** C6, as stated, fails: two submissions for which [Math.random] yields
    the same text create two different records with the same id. *)
Lemma created_ids_collide :
  ∃ item1 item2,
    records_created collision ready_all = [item1; item2]
    ∧ item1 ≠ item2
    ∧ HistoryItem.id item1 = HistoryItem.id item2.
Proof.
  eexists _, _. split; [reflexivity|]. split; [|reflexivity].
  intros H. discriminate H.
Qed.

(** ** The life of a record *)

Lemma NoDup_delete_lookup {A} (l : list A) (k : nat) (x : A) :
  NoDup l → l !! k = Some x → x ∉ delete k l.
Proof.
  intros Hnd Hk Hin.
  apply list_elem_of_lookup in Hin as [j Hj].
  rewrite list_lookup_delete in Hj. case_decide.
  - assert (j = k) by (by eapply NoDup_lookup). lia.
  - assert (S j = k) by (by eapply NoDup_lookup). lia.
Qed.

Lemma elem_of_resolve_update jobId outcome (prev : list ProcessingHistoryItem) item' :
  item' ∈ resolve_update jobId outcome prev →
  ∃ item, item ∈ prev ∧ HistoryItem.id item' = HistoryItem.id item
          ∧ ((HistoryItem.id item = jobId ∧ item' = settle outcome item)
             ∨ (HistoryItem.id item ≠ jobId ∧ item' = item)).
Proof.
  unfold resolve_update. intros H. apply list_elem_of_fmap in H as (item & -> & Hin).
  exists item. split; [done|]. case_bool_decide.
  - rewrite settle_id. split; [done|]. by left.
  - split; [done|]. by right.
Qed.

Lemma settle_consistent outcome (item : ProcessingHistoryItem) :
  HistoryItem.status item = pending → consistent item → consistent (settle outcome item).
Proof.
  unfold consistent. intros ->. intros [Hr He].
  destruct outcome; simpl; rewrite ?Hr, ?He; split; done.
Qed.

Lemma jobs_invariant_initial : jobs_invariant [] initial.
Proof.
  split; simpl; try apply NoDup_nil_2; intros ? H; by apply elem_of_nil in H.
Qed.

(** The invariant survives every event whose drawn text, if it draws one,
    is new. *)
Lemma jobs_invariant_step (D : list string) (ev : event) (s : AppState) :
  jobs_invariant D s →
  (∀ x, x ∈ drawn [ev] → x ∉ D) →
  jobs_invariant (D ++ drawn [ev]) (step ev s).
Proof.
  intros [Hids Htim HidD HtimD Hset Hcons] Hfresh.
  destruct (step_jobs ev s)
    as [[Hsub Ht] | [(rnd & now & r & -> & Hh & Ht) | (k & r & jobId & -> & Hk & Ht & Hh)]].
  - split; rewrite ?Ht.
    + eapply sublist_NoDup; [exact Hids | by apply fmap_sublist].
    + done.
    + intros item Hin. apply elem_of_app. left. apply HidD. by eapply elem_of_sublist.
    + intros x Hx. apply elem_of_app. left. by apply HtimD.
    + intros item Hin. apply Hset. by eapply elem_of_sublist.
    + intros item Hin. apply Hcons. by eapply elem_of_sublist.
  - assert (rnd ∉ D) as HrD by (apply Hfresh; by left).
    split; rewrite ?Ht, ?Hh.
    + rewrite fmap_cons. apply NoDup_cons. split; [|done]. simpl.
      intros Hin. apply list_elem_of_fmap in Hin as (item & -> & Hin). by apply HrD, HidD.
    + apply NoDup_app. split_and!; [done | | apply NoDup_singleton].
      intros x Hx Hx'. apply list_elem_of_singleton in Hx' as ->. by apply HrD, HtimD.
    + intros item Hin. apply elem_of_app. apply elem_of_cons in Hin as [-> | Hin].
      * right. by left.
      * left. by apply HidD.
    + intros x Hx. apply elem_of_app. apply elem_of_app in Hx as [Hx | Hx].
      * left. by apply HtimD.
      * by right.
    + intros item Hin Hst. apply elem_of_cons in Hin as [-> | Hin]; [done|].
      intros Hx. apply elem_of_app in Hx as [Hx | Hx]; [by eapply Hset|].
      apply list_elem_of_singleton in Hx. apply HrD. rewrite <- Hx. by apply HidD.
    + intros item Hin. apply elem_of_cons in Hin as [-> | Hin]; [by split | by apply Hcons].
  - assert (jobId ∈ timers s) as HjT by (by eapply list_elem_of_lookup_2).
    split; rewrite ?Ht, ?Hh.
    + by rewrite resolve_update_ids.
    + eapply sublist_NoDup; [exact Htim | apply sublist_delete].
    + intros item' Hin. apply elem_of_resolve_update in Hin as (item & Hin & -> & _).
      apply elem_of_app. left. by apply HidD.
    + intros x Hx. apply elem_of_app. left. eapply HtimD, list_elem_of_delete_inv, Hx.
    + intros item' Hin Hst.
      apply elem_of_resolve_update in Hin as (item & Hin & Hid & [[Hj ->] | [Hj ->]]).
      * rewrite Hid, Hj. by apply NoDup_delete_lookup.
      * intros Hx. eapply Hset; [exact Hin | done |]. eapply list_elem_of_delete_inv, Hx.
    + intros item' Hin.
      apply elem_of_resolve_update in Hin as (item & Hin & Hid & [[Hj ->] | [Hj ->]]).
      * apply settle_consistent; [|by apply Hcons].
        destruct (decide (HistoryItem.status item = pending)) as [|Hne]; [done|].
        exfalso. eapply Hset; [exact Hin | done |]. by rewrite Hj.
      * by apply Hcons.
Qed.

Lemma jobs_invariant_run (evs : list event) :
  ∀ D s, jobs_invariant D s →
         NoDup (drawn evs) → (∀ x, x ∈ drawn evs → x ∉ D) →
         jobs_invariant (D ++ drawn evs) (run evs s).
Proof.
  induction evs as [|ev evs IH]; intros D s Hinv Hnd Hfresh.
  - simpl. by rewrite app_nil_r.
  - rewrite drawn_cons in *. apply NoDup_app in Hnd as (Hnd1 & Hdisj & Hnd2).
    rewrite app_assoc. apply IH; [|done|].
    + apply jobs_invariant_step; [done|].
      intros x Hx. apply Hfresh, elem_of_app. by left.
    + intros x Hx Hin. apply elem_of_app in Hin as [Hin | Hin].
      * eapply Hfresh; [|exact Hin]. apply elem_of_app. by right.
      * by eapply Hdisj.
Qed.

(** What a state holds of an earlier record survives every event that
    draws no text already drawn. *)
Lemma follows_step (D : list string) (ev : event) (s : AppState)
    (item : ProcessingHistoryItem) :
  jobs_invariant D s → HistoryItem.id item ∈ D →
  (∀ x, x ∈ drawn [ev] → x ∉ D) →
  follows item s → follows item (step ev s).
Proof.
  intros [Hids Htim HidD HtimD Hset Hcons] HxD Hfresh Hfol.
  destruct (step_jobs ev s)
    as [[Hsub Ht] | [(rnd & now & r & -> & Hh & Ht) | (k & r & jobId & -> & Hk & Ht & Hh)]].
  - destruct Hfol as [[Hsame Hgone] | (Hp & Hgone & o & Hall)]; [left | right];
      rewrite Ht; split_and!; try done.
    + intros item' Hin. apply Hsame. by eapply elem_of_sublist.
    + exists o. intros item' Hin. apply Hall. by eapply elem_of_sublist.
  - assert (rnd ∉ D) as HrD by (apply Hfresh; by left).
    assert (HistoryItem.id item ∉ [rnd]) as Hne.
    { intros Hx. apply list_elem_of_singleton in Hx. congruence. }
    destruct Hfol as [[Hsame Hgone] | (Hp & Hgone & o & Hall)]; [left | right];
      rewrite Ht, Hh; split_and!; try done.
    + intros item' Hin Hid. apply elem_of_cons in Hin as [-> | Hin]; [|by apply Hsame].
      simpl in Hid. congruence.
    + intros Hst Hx. apply elem_of_app in Hx as [Hx | Hx]; [by apply Hgone | done].
    + intros Hx. apply elem_of_app in Hx as [Hx | Hx]; done.
    + exists o. intros item' Hin Hid. apply elem_of_cons in Hin as [-> | Hin]; [|by apply Hall].
      simpl in Hid. congruence.
  - assert (jobId ∈ timers s) as HjT by (by eapply list_elem_of_lookup_2).
    destruct Hfol as [[Hsame Hgone] | (Hp & Hgone & o & Hall)].
    + destruct (decide (HistoryItem.id item = jobId)) as [Hj | Hj].
      * right. rewrite Ht, Hh.
        assert (HistoryItem.status item = pending) as Hp.
        { destruct (decide (HistoryItem.status item = pending)) as [|Hne]; [done|].
          exfalso. apply (Hgone Hne). by rewrite Hj. }
        split_and!; [done | rewrite Hj; by apply NoDup_delete_lookup |].
        exists (try_block r). intros item' Hin Hid.
        apply elem_of_resolve_update in Hin as (item0 & Hin & Hid0 & [[_ ->] | [Hne ->]]).
        -- f_equal. apply Hsame; [done | congruence].
        -- congruence.
      * left. rewrite Ht, Hh. split.
        -- intros item' Hin Hid.
           apply elem_of_resolve_update in Hin as (item0 & Hin & Hid0 & [[Hj0 ->] | [_ ->]]).
           ++ congruence.
           ++ by apply Hsame.
        -- intros Hst Hx. eapply Hgone; [done|]. eapply list_elem_of_delete_inv, Hx.
    + right. rewrite Ht, Hh.
      assert (HistoryItem.id item ≠ jobId) as Hj by congruence.
      split_and!; [done | |].
      * intros Hx. eapply Hgone, list_elem_of_delete_inv, Hx.
      * exists o. intros item' Hin Hid.
        apply elem_of_resolve_update in Hin as (item0 & Hin & Hid0 & [[Hj0 ->] | [_ ->]]).
        -- congruence.
        -- by apply Hall.
Qed.

Lemma follows_run (evs : list event) (item : ProcessingHistoryItem) :
  ∀ D s, jobs_invariant D s → HistoryItem.id item ∈ D →
         NoDup (drawn evs) → (∀ x, x ∈ drawn evs → x ∉ D) →
         follows item s → follows item (run evs s).
Proof.
  induction evs as [|ev evs IH]; intros D s Hinv HxD Hnd Hfresh Hfol; [done|].
  rewrite drawn_cons in *. apply NoDup_app in Hnd as (Hnd1 & Hdisj & Hnd2).
  assert (∀ x, x ∈ drawn [ev] → x ∉ D) as Hfresh1.
  { intros x Hx. apply Hfresh, elem_of_app. by left. }
  simpl. apply (IH (D ++ drawn [ev])).
  - by apply jobs_invariant_step.
  - apply elem_of_app. by left.
  - done.
  - intros x Hx Hin. apply elem_of_app in Hin as [Hin | Hin].
    + eapply Hfresh; [|exact Hin]. apply elem_of_app. by right.
    + by eapply Hdisj.
  - by eapply follows_step.
Qed.

Lemma follows_start (D : list string) (s : AppState) (item : ProcessingHistoryItem) :
  jobs_invariant D s → item ∈ processingHistory s → follows item s.
Proof.
  intros [Hids Htim HidD HtimD Hset Hcons] Hin. left. split; [|by apply Hset].
  intros item' Hin' Hid.
  apply list_elem_of_lookup in Hin as [i Hi]. apply list_elem_of_lookup in Hin' as [j Hj].
  assert (j = i) as ->; [|congruence].
  eapply NoDup_lookup; [exact Hids | |]; rewrite list_lookup_fmap.
  - by rewrite Hj.
  - rewrite Hi. simpl. by rewrite Hid.
Qed.

(** C2 (as amended): in a session in which no two submissions draw the
    same id, every record is created pending, with neither result nor
    error; a record of the history holds exactly the outcome its status
    announces; and whatever happens later, in whatever order the
    outstanding jobs resolve, a record with the same id found in a later
    history is the record unchanged, or the record, then pending, settled
    once (completed or failed).  In particular a record that is completed
    or failed is never changed again. *)
Theorem status_settles_once (evs1 evs2 : list event) :
  NoDup (drawn (evs1 ++ evs2)) →
  let s1 := run evs1 initial in
  let s2 := run evs2 s1 in
  (∀ item, item ∈ records_created (evs1 ++ evs2) initial →
           HistoryItem.status item = pending
           ∧ HistoryItem.result item = None ∧ HistoryItem.error item = None) ∧
  (∀ item, item ∈ processingHistory s1 → consistent item) ∧
  (∀ item item',
     item ∈ processingHistory s1 → item' ∈ processingHistory s2 →
     HistoryItem.id item' = HistoryItem.id item →
     item' = item
     ∨ (HistoryItem.status item = pending
        ∧ ∃ outcome, item' = settle outcome item
                     ∧ HistoryItem.status item'
                       = match outcome with inr _ => completed | inl _ => failed end)) ∧
  (∀ item item',
     item ∈ processingHistory s1 → HistoryItem.status item ≠ pending →
     item' ∈ processingHistory s2 →
     HistoryItem.id item' = HistoryItem.id item → item' = item).
Proof.
  intros Hnd. simpl. rewrite drawn_app in Hnd.
  apply NoDup_app in Hnd as (Hnd1 & Hdisj & Hnd2).
  pose proof (jobs_invariant_run evs1 [] initial jobs_invariant_initial Hnd1
                ltac:(intros x _ Hx; by apply elem_of_nil in Hx)) as Hinv.
  simpl in Hinv.
  assert (∀ item item',
            item ∈ processingHistory (run evs1 initial) →
            item' ∈ processingHistory (run evs2 (run evs1 initial)) →
            HistoryItem.id item' = HistoryItem.id item →
            item' = item
            ∨ (HistoryItem.status item = pending
               ∧ ∃ outcome, item' = settle outcome item
                            ∧ HistoryItem.status item'
                              = match outcome with inr _ => completed | inl _ => failed end))
    as Hlater.
  { intros item item' Hin Hin' Hid.
    assert (follows item (run evs2 (run evs1 initial))) as Hfol.
    { apply (follows_run evs2 item (drawn evs1)); try done.
      - by apply (inv_history_drawn _ _ Hinv).
      - intros x Hx Hx'. by eapply Hdisj.
      - by eapply follows_start. }
    destruct Hfol as [[Hsame _] | (Hp & _ & o & Hall)].
    - left. by apply Hsame.
    - right. split; [done|]. exists o. rewrite (Hall item' Hin' Hid).
      split; [done | apply settle_status]. }
  split_and!.
  - intros item Hin. by eapply created_pending.
  - apply (inv_consistent _ _ Hinv).
  - exact Hlater.
  - intros item item' Hin Hst Hin' Hid.
    destruct (Hlater item item' Hin Hin' Hid) as [-> | [Hp _]]; done.
Qed.

Lemma status_settles_once_witness :
  HistoryItem.status <$> processingHistory (run two_jobs initial) = [failed; pending]
  ∧ HistoryItem.status <$> processingHistory (run first_completes (run two_jobs initial))
    = [failed; completed]
  ∧ ∀ item item',
      item ∈ processingHistory (run two_jobs initial) →
      HistoryItem.status item ≠ pending →
      item' ∈ processingHistory (run first_completes (run two_jobs initial)) →
      HistoryItem.id item' = HistoryItem.id item → item' = item.
Proof.
  split; [reflexivity|]. split; [reflexivity|].
  apply (status_settles_once two_jobs first_completes).
  apply (bool_decide_unpack (NoDup (drawn (two_jobs ++ first_completes)))).
  vm_compute. exact I.
Defined.

(** C2, as stated, fails: when two submissions drew the same id, the
    callback of the second one settles the record of the first one a
    second time; a record that was completed becomes failed and holds a
    result and an error at once. *)
Lemma completed_record_fails_later :
  ∃ item item',
    processingHistory (run collision ready_all) !! 1%nat = Some item
    ∧ processingHistory (run (collision ++ [TimerFires 0 (HttpNotOk 502)]) ready_all)
        !! 1%nat = Some item'
    ∧ HistoryItem.timestamp item = 1000 ∧ HistoryItem.timestamp item' = 1000
    ∧ HistoryItem.status item = completed
    ∧ HistoryItem.status item' = failed
    ∧ is_Some (HistoryItem.result item') ∧ is_Some (HistoryItem.error item')
    ∧ ¬ consistent item'.
Proof.
  eexists _, _. split; [reflexivity|]. split; [reflexivity|].
  split_and!; try reflexivity; try by eexists.
  intros [H _]. discriminate H.
Qed.

(** * Further properties of the handlers *)

(** ** What an event leaves alone *)

Lemma forEach_keeps {A} (Q : AppState → Prop) (xs : list A) (f : A → M unit) :
  (∀ x s, Q s → Q (f x s).2) → ∀ s, Q s → Q (forEach xs f s).2.
Proof.
  intros Hf. induction xs as [|x xs IH]; intros s Hs; [done|].
  simpl. unfold mbind, M_bind. specialize (Hf x s Hs).
  destruct (f x s) as [[[]|e] s1]; simpl in Hf; [by apply IH | done].
Qed.

(** [handleVisibility] writes the cursor and the renderer, nothing else,
    also when it is cut short. *)
Lemma handleVisibility_frame (i : nat) (s : AppState) :
  ∃ r, (handleVisibility i s).2
       = {| images := images s; currentImageIndex := Some i;
            selectedTool := selectedTool s;
            processingHistory := processingHistory s; nv := r;
            alerts := alerts s; timers := timers s |}.
Proof.
  unfold handleVisibility.
  unfold mbind at 1 2, M_bind at 1 2, get, setCurrentImageIndex, modify. cbv beta iota.
  unfold mbind, M_bind.
  match goal with |- context [forEach ?L ?f ?s0] =>
    pose proof (forEach_keeps (λ s', ∃ r, s' = with_nv r s0) L f
      ltac:(intros x s1 [r ->]; rewrite visibilityCallback_eq; unfold nvCall;
            case_match; simpl; eauto) s0
      ltac:(exists (nv s); reflexivity)) as [r Hr];
    destruct (forEach L f s0) as [[[]|e] s1]
  end; simpl in Hr; subst s1; simpl; eauto.
Qed.

Lemma step_cells (ev : event) (s : AppState) :
  selectedTool (step ev s)
  = match ev with ToolChosen value => Some value | _ => selectedTool s end
  ∧ (is_Some (currentImageIndex s) → is_Some (currentImageIndex (step ev s)))
  ∧ images (step ev s)
    = match ev with
      | FileLoaded nvimage =>
          images s ++ [ImageFile.mk (NVImage.id nvimage) (NVImage.name nvimage) false]
      | ToggleImageSelection id => toggle id <$> images s
      | _ => images s
      end.
Proof.
  unfold step. destruct ev as [files|nvimage|id|value|rnd now|k r|item fetched|id|c|index];
    simpl.
  - unfold_handler. by case_match.
  - by unfold_handler.
  - by unfold_handler.
  - by unfold_handler.
  - destruct (submit_rejected_or_accepted s) as [Hacc | Hrej].
    + by destruct (submit_accepted_shape rnd now s Hacc) as [r [[e ->] | [_ ->]]].
    + by rewrite (submit_rejected rnd now s Hrej).
  - unfold_handler. by destruct (timers s !! k).
  - unfold_handler. repeat case_match; simplify_eq/=; done.
  - by unfold_handler.
  - by destruct c.
  - destruct (handleVisibility_frame index s) as [r ->]. simpl. split_and!; eauto.
Qed.

(** ** Uploading files *)

Lemma getVolumeIndexByID_snoc (vs : list NVImage) (v : NVImage) (cs : list NvCall) :
  NVImage.id v ∉ NVImage.id <$> vs →
  getVolumeIndexByID (NVImage.id v) {| volumes := vs ++ [v]; calls := cs |}
  = Z.of_nat (length vs).
Proof.
  intros Hfresh. unfold getVolumeIndexByID. simpl.
  destruct (list_find _ _) as [[i w]|] eqn:E.
  - apply list_find_Some in E as (Hi & Hw & Hmin).
    destruct (decide (i < length vs)%nat) as [Hlt | Hge].
    + exfalso. apply Hfresh. rewrite lookup_app_l in Hi by done.
      rewrite <- Hw. apply list_elem_of_fmap_2. by eapply list_elem_of_lookup_2.
    + apply lookup_lt_Some in Hi. rewrite length_app in Hi. simpl in Hi.
      f_equal. lia.
  - apply list_find_None in E. rewrite Forall_forall in E.
    exfalso. apply (E v); [|done]. apply elem_of_app. right. by left.
Qed.

(** X1: when one uploaded file finishes loading, its volume is appended
    to the renderer and an unselected entry with the volume's id and name
    is appended to the registry; the earlier entries are untouched,
    registry and renderer stay aligned, and if the id is new it resolves to
    the position of the new registry entry. *)
Theorem file_loaded_keeps_alignment (nvimage : NVImage) (s : AppState) :
  aligned s →
  let res := fileLoaded nvimage s in
  res.1 = Returned () ∧
  aligned res.2 ∧
  images res.2
  = images s ++ [ImageFile.mk (NVImage.id nvimage) (NVImage.name nvimage) false] ∧
  volumes (nv res.2) = volumes (nv s) ++ [nvimage] ∧
  processingHistory res.2 = processingHistory s ∧
  (NVImage.id nvimage ∉ ImageFile.id <$> images s →
   getVolumeIndexByID (NVImage.id nvimage) (nv res.2) = Z.of_nat (length (images s))).
Proof.
  intros Hal. unfold_handler. split_and!; try reflexivity.
  - unfold aligned in *. simpl. by rewrite !fmap_app, Hal.
  - intros Hfresh. unfold served.
    assert (NVImage.id <$> volumes (nv s) = ImageFile.id <$> images s) as Hids.
    { unfold aligned in Hal.
      apply (f_equal (fmap fst)) in Hal. by rewrite <- !list_fmap_compose in Hal. }
    rewrite getVolumeIndexByID_snoc by (by rewrite Hids).
    by rewrite <- (length_fmap NVImage.id), Hids, length_fmap.
Qed.

Lemma file_loaded_keeps_alignment_witness :
  getVolumeIndexByID "vol-c" (nv (fileLoaded volC ready).2) = 2.
Proof.
  destruct (file_loaded_keeps_alignment volC ready) as (_ & _ & _ & _ & _ & H);
    [reflexivity|].
  apply H. vm_compute. intros Hin.
  apply elem_of_cons in Hin as [Hin | Hin]; [discriminate|].
  apply elem_of_cons in Hin as [Hin | Hin]; [discriminate|].
  by apply elem_of_nil in Hin.
Defined.

Lemma aligned_ids (s : AppState) :
  aligned s → NVImage.id <$> volumes (nv s) = ImageFile.id <$> images s.
Proof.
  unfold aligned. intros Hal.
  apply (f_equal (fmap fst)) in Hal. by rewrite <- !list_fmap_compose in Hal.
Qed.

Lemma aligned_resolves (s : AppState) :
  aligned s →
  ∀ img, img ∈ images s → ImageFile.id img ∈ NVImage.id <$> volumes (nv s).
Proof.
  intros Hal img Hin. rewrite (aligned_ids s Hal). by apply list_elem_of_fmap_2.
Qed.

Lemma assign_labels (vs : list NVImage) (id : string) (o : Z) :
  label_of_volume <$> assign vs id o = label_of_volume <$> vs.
Proof.
  induction vs as [|v vs IH]; [reflexivity|].
  rewrite assign_cons. case_decide; rewrite !fmap_cons; [reflexivity | by rewrite IH].
Qed.

Lemma foldl_assign_labels (id : nat) (L : list (ImageFile * nat)) (vs : list NVImage) :
  label_of_volume
    <$> foldl (λ vs p, assign vs (ImageFile.id p.1) (target id p.2)) vs L
  = label_of_volume <$> vs.
Proof.
  revert vs. induction L as [|p L IH]; intros vs; [reflexivity|].
  simpl. rewrite IH. apply assign_labels.
Qed.

Lemma toggle_labels (id : string) (imgs : list ImageFile) :
  label_of_image <$> (toggle id <$> imgs) = label_of_image <$> imgs.
Proof.
  rewrite <- list_fmap_compose. apply list_fmap_ext. intros _ img _. simpl.
  unfold toggle. by case_bool_decide.
Qed.

Lemma aligned_step (ev : event) (s : AppState) :
  keeps_volumes ev → aligned s → aligned (step ev s).
Proof.
  intros Hev Hal. unfold step.
  destruct ev as [files|nvimage|id|value|rnd now|k r|item fetched|id|c|index];
    simpl in *; try done.
  - unfold_handler. by case_match.
  - unfold_handler. unfold aligned in *. simpl. by rewrite !fmap_app, Hal.
  - unfold_handler. unfold aligned in *. simpl. by rewrite toggle_labels.
  - unfold_handler. by destruct (timers s !! k).
  - by destruct c.
  - rewrite handleVisibility_eq by by apply aligned_resolves.
    unfold aligned in *. simpl. by rewrite foldl_assign_labels.
Qed.

Lemma aligned_run (evs : list event) :
  ∀ s, Forall keeps_volumes evs → aligned s → aligned (run evs s).
Proof.
  induction evs as [|ev evs IH]; intros s Hevs Hal; [done|].
  apply Forall_cons in Hevs as [Hev Hevs]. simpl. apply IH; [done|].
  by apply aligned_step.
Qed.

(** X2: as long as no submission has pruned the renderer and no result
    has been loaded into it, registry and renderer list the same volumes
    (same ids and names, same order), whatever files were loaded, boxes
    ticked, records deleted or images made active; and in such a state
    making any image active runs to its end without raising. *)
Theorem aligned_until_pruned (evs : list event) (i : nat) :
  Forall keeps_volumes evs →
  aligned (run evs initial) ∧
  (handleVisibility i (run evs initial)).1 = Returned () ∧
  aligned (handleVisibility i (run evs initial)).2.
Proof.
  intros Hevs.
  assert (aligned (run evs initial)) as Hal by (by apply aligned_run).
  split; [done|].
  rewrite handleVisibility_eq by by apply aligned_resolves.
  split; [reflexivity|]. unfold aligned in *. simpl. by rewrite foldl_assign_labels.
Qed.

Lemma aligned_until_pruned_witness :
  Forall keeps_volumes calm_session ∧ aligned (run calm_session initial).
Proof.
  assert (Forall keeps_volumes calm_session) as Hcalm.
  { unfold calm_session. repeat (apply Forall_cons; split; [exact I|]). apply Forall_nil_2. }
  split; [exact Hcalm|].
  exact (proj1 (aligned_until_pruned calm_session 0 Hcalm)).
Defined.

(** ** The cursor and the uploader *)

Lemma cursor_run (evs : list event) :
  ∀ s, is_Some (currentImageIndex s) → is_Some (currentImageIndex (run evs s)).
Proof.
  induction evs as [|ev evs IH]; intros s Hs; [done|].
  simpl. apply IH. by apply step_cells.
Qed.

(** X3: no handler ever sets the cursor back to [null]: once the canvas
    has replaced the uploader, no sequence of events brings the uploader
    back. *)
Theorem uploader_never_returns (evs : list event) (s : AppState) :
  showsUploader s = false → showsUploader (run evs s) = false.
Proof.
  unfold showsUploader. intros Hs.
  apply bool_decide_eq_false in Hs. apply bool_decide_eq_false.
  assert (is_Some (currentImageIndex s)) as Hsome.
  { by destruct (currentImageIndex s); [eexists|]. }
  intros Hnone. apply (cursor_run evs) in Hsome as [i Hi]. congruence.
Qed.

Lemma uploader_never_returns_witness :
  showsUploader (run [ClearHistory true; ProcessImages "k3x9q2a" 1000;
                      Visibility 7; FilesDropped 0] ready) = false.
Proof. apply uploader_never_returns. reflexivity. Defined.

(** X4: [handleFileUpload] moves the cursor only when it is [null] and at
    least one file was dropped; it then points just past the registry, so
    that no row is highlighted until a file has loaded, and the first file
    to load lands on the highlighted row.  In every other case the state
    is left as it is. *)
Theorem upload_sets_cursor_once (files : nat) (nvimage : NVImage) (s : AppState) :
  let s1 := (handleFileUpload files s).2 in
  (handleFileUpload files s).1 = Returned () ∧
  images s1 = images s ∧ nv s1 = nv s ∧
  (currentImageIndex s ≠ None ∨ files = 0%nat → s1 = s) ∧
  (currentImageIndex s = None → (0 < files)%nat →
   currentImageIndex s1 = Some (length (images s)) ∧
   (∀ row, row ∈ imageRows s1 → row_highlighted row = false) ∧
   imageRows (fileLoaded nvimage s1).2 !! length (images s)
   = Some {| row_key := NVImage.id nvimage; row_name := NVImage.name nvimage;
             row_checked := false; row_highlighted := true |}).
Proof.
  unfold_handler. split_and!.
  - by case_match.
  - by case_match.
  - by case_match.
  - intros [Hc | ->].
    + rewrite bool_decide_false by done. simpl. by destruct s.
    + rewrite andb_false_r. by destruct s.
  - intros Hc Hf. rewrite Hc. rewrite !bool_decide_true by (done || lia). simpl.
    split_and!; [done | |].
    + intros row Hrow. unfold imageRows in Hrow. simpl in Hrow.
      apply list_elem_of_lookup in Hrow as [k Hk]. rewrite list_lookup_imap in Hk.
      destruct (images s !! k) as [img|] eqn:E; [|done]. simpl in Hk.
      injection Hk as <-. simpl. apply bool_decide_eq_false.
      apply lookup_lt_Some in E. intros [=]. lia.
    + unfold imageRows. simpl. rewrite list_lookup_imap.
      rewrite list_lookup_middle by done. simpl. by rewrite bool_decide_true.
Qed.

Lemma upload_sets_cursor_once_witness :
  currentImageIndex (handleFileUpload 2 initial).2 = Some 0%nat.
Proof.
  destruct (upload_sets_cursor_once 2 volA initial) as (_ & _ & _ & _ & H).
  destruct H as (Hc & _); [reflexivity | lia |]. exact Hc.
Defined.

(** ** Toggling twice *)

Lemma toggle_toggle (id : string) (img : ImageFile) : toggle id (toggle id img) = img.
Proof.
  unfold toggle. destruct (decide (ImageFile.id img = id)) as [H | H].
  - rewrite (bool_decide_true _ H). simpl. rewrite (bool_decide_true _ H).
    rewrite negb_involutive. by destruct img.
  - rewrite (bool_decide_false _ H). by rewrite (bool_decide_false _ H).
Qed.

(** X5: ticking the same box twice in a row gives back the state one
    started from: every image has its original flag again and nothing else
    has moved. *)
Theorem toggle_twice_restores (id : string) (s : AppState) :
  toggleImageSelection id (toggleImageSelection id s).2 = (Returned (), s).
Proof.
  unfold_handler. f_equal. rewrite <- list_fmap_compose.
  rewrite (list_fmap_ext _ (λ img, img) (images s));
    [|intros _ img _; apply toggle_toggle].
  rewrite list_fmap_id. by destruct s.
Qed.

(** ** The process button and the validation *)

Lemma none_selected (imgs : list ImageFile) :
  existsb ImageFile.selected imgs = false
  ↔ filter (λ img, ImageFile.selected img = true) imgs = [].
Proof.
  induction imgs as [|img imgs IH]; [done|].
  rewrite filter_cons. simpl. case_decide as E.
  - rewrite E. simpl. split; discriminate.
  - apply not_true_is_false in E. rewrite E. simpl. exact IH.
Qed.

Lemma processDisabled_iff (s : AppState) :
  processDisabled s = true
  ↔ (filter (λ img, ImageFile.selected img = true) (images s) = []
     ∨ truthy (selectedTool s) = false).
Proof.
  unfold processDisabled. rewrite orb_true_iff, !negb_true_iff, none_selected. done.
Qed.

Lemma processEnabled_iff (s : AppState) : processDisabled s = false ↔ accepts s.
Proof.
  unfold accepts. split.
  - intros Hd. split.
    + intros Hnil. assert (processDisabled s = true) as Ht; [|congruence].
      apply processDisabled_iff. by left.
    + destruct (truthy (selectedTool s)) eqn:E; [done|].
      assert (processDisabled s = true) as Ht; [|congruence].
      apply processDisabled_iff. by right.
  - intros [Hsel Htool]. destruct (processDisabled s) eqn:E; [|done].
    apply processDisabled_iff in E as [E | E]; congruence.
Qed.

Lemma submit_accepted_alerts (rnd : string) (now : Z) (s : AppState) :
  accepts s → alerts (handleProcessImages rnd now s).2 = alerts s.
Proof.
  intros Hacc.
  by destruct (submit_accepted_shape rnd now s Hacc) as [r [[e ->] | [_ ->]]].
Qed.

(** X6: the button is rendered disabled exactly in the states in which
    [handleProcessImages] would turn the submission down with the
    validation notice; when it is enabled the handler shows no notice. *)
Theorem process_button_matches_validation (rnd : string) (now : Z) (s : AppState) :
  (processDisabled s = true ↔ rejected s (handleProcessImages rnd now s)) ∧
  (processDisabled s = false ↔ accepts s) ∧
  (processDisabled s = false → alerts (handleProcessImages rnd now s).2 = alerts s).
Proof.
  split_and!.
  - split.
    + intros Hd. apply processDisabled_iff in Hd.
      rewrite (submit_rejected rnd now s Hd).
      unfold rejected. unfold_handler. split_and!; reflexivity.
    + intros (_ & Hal & _). destruct (processDisabled s) eqn:E; [done|].
      apply processEnabled_iff in E.
      rewrite (submit_accepted_alerts rnd now s E) in Hal.
      apply (f_equal length) in Hal. rewrite length_app in Hal. simpl in Hal. lia.
  - apply processEnabled_iff.
  - intros Hd. by apply submit_accepted_alerts, processEnabled_iff.
Qed.

(** ** The record of an accepted submission *)

Lemma submit_created_item (rnd : string) (now : Z) (s : AppState) item :
  accepts s →
  processingHistory (handleProcessImages rnd now s).2 = item :: processingHistory s →
  ∃ r, item = newItem rnd now s r ∧ (handleProcessImages rnd now s).1 = Returned ()
       ∧ nv (handleProcessImages rnd now s).2 = r
       ∧ timers (handleProcessImages rnd now s).2 = timers s ++ [rnd].
Proof.
  intros Hacc Hh.
  destruct (submit_accepted_shape rnd now s Hacc) as [r [[e Heq] | [_ Heq]]];
    rewrite Heq in *; simpl in Hh.
  - apply (f_equal length) in Hh. simpl in Hh. lia.
  - exists r. by injection Hh as <-.
Qed.

(** X7: the record of an accepted submission carries the display name of
    the chosen tool when the chosen id names one of the processing tools,
    and the chosen id itself otherwise. *)
Theorem record_tool_name (rnd : string) (now : Z) (s : AppState)
    (item : ProcessingHistoryItem) :
  accepts s →
  processingHistory (handleProcessImages rnd now s).2 = item :: processingHistory s →
  (∀ t, t ∈ processingTools → selectedTool s = Some (ProcessingTool.id t) →
        HistoryItem.toolName item = ProcessingTool.name t) ∧
  (resolves (selectedTool s) = false → selectedTool s = Some (HistoryItem.toolName item)).
Proof.
  intros Hacc Hh.
  destruct (submit_created_item rnd now s item Hacc Hh) as (r & -> & _).
  clear Hh. split.
  - intros t Ht Hsel. unfold newItem. rewrite Hsel. simpl. unfold processingTools in Ht.
    apply elem_of_cons in Ht as [-> | Ht]; [reflexivity|].
    apply elem_of_cons in Ht as [-> | Ht]; [reflexivity|].
    by apply elem_of_nil in Ht.
  - destruct Hacc as [_ Htool]. unfold newItem.
    destruct (selectedTool s) as [toolId|]; [|done].
    unfold resolves. intros Hres. apply bool_decide_eq_false in Hres.
    change (default "" (Some toolId)) with toolId.
    destruct (find _ processingTools) as [t|] eqn:E; [|done].
    exfalso. apply Hres. by eexists.
Qed.

Lemma record_tool_name_witness :
  HistoryItem.toolName <$> processingHistory (handleProcessImages "k3x9q2a" 1000 ready).2
  = ["Segmentation"].
Proof.
  destruct (record_tool_name "k3x9q2a" 1000 ready
              (HistoryItem.mk "k3x9q2a" 1000
                 {| imageOptionsArray := Some [options_of volB] |}
                 "Segmentation" pending None None)) as [H _].
  - split; [discriminate | reflexivity].
  - reflexivity.
  - reflexivity.
Defined.

(** X8: a submission whose pruning loop is cut short by the renderer
    raises before anything else happens: no record is created, no timer is
    set, no notice is shown and the registry is as before; only the
    renderer may have changed. *)
Theorem submission_cut_short_creates_nothing
    (rnd : string) (now : Z) (s : AppState) (e : thrown) :
  (handleProcessImages rnd now s).1 = Threw e →
  accepts s ∧
  processingHistory (handleProcessImages rnd now s).2 = processingHistory s ∧
  timers (handleProcessImages rnd now s).2 = timers s ∧
  alerts (handleProcessImages rnd now s).2 = alerts s ∧
  images (handleProcessImages rnd now s).2 = images s.
Proof.
  intros Hthrew. destruct (submit_rejected_or_accepted s) as [Hacc | Hrej].
  - split; [done|].
    destruct (submit_accepted_shape rnd now s Hacc) as [r [[e' Heq] | [_ Heq]]];
      rewrite Heq in *; [done | discriminate].
  - rewrite (submit_rejected rnd now s Hrej) in Hthrew. discriminate.
Qed.

Lemma submission_cut_short_creates_nothing_witness :
  (handleProcessImages "p07zzm1" 2000 pruned_once).1
  = Threw (ErrorObject "Index of volume out of bounds")
  ∧ length (processingHistory (handleProcessImages "p07zzm1" 2000 pruned_once).2) = 1%nat.
Proof.
  split; [reflexivity|].
  destruct (submission_cut_short_creates_nothing "p07zzm1" 2000 pruned_once
              (ErrorObject "Index of volume out of bounds")) as (_ & Hh & _);
    [reflexivity|].
  rewrite Hh. reflexivity.
Defined.

(** ** Callbacks, deletions and their order *)

Lemma resolve_update_absent jobId outcome (prev : list ProcessingHistoryItem) :
  jobId ∉ HistoryItem.id <$> prev → resolve_update jobId outcome prev = prev.
Proof.
  intros Habs. unfold resolve_update.
  rewrite <- (list_fmap_id prev) at 2. apply list_fmap_ext.
  intros i item Hi. simpl. rewrite bool_decide_false; [done|].
  intros Hid. apply Habs. rewrite <- Hid.
  apply list_elem_of_fmap_2. by eapply list_elem_of_lookup_2.
Qed.

(** X9: a timer callback whose record is no longer in the history (it was
    deleted, or the history was cleared) only retires its timer: the
    history is left exactly as it is.  A callback that is not outstanding
    does nothing at all. *)
Theorem callback_without_record (k : nat) (r : resolution) (s : AppState) :
  (timers s !! k = None → timerCallback k r s = (Returned (), s)) ∧
  (∀ jobId, timers s !! k = Some jobId →
            jobId ∉ HistoryItem.id <$> processingHistory s →
            processingHistory (timerCallback k r s).2 = processingHistory s
            ∧ timers (timerCallback k r s).2 = delete k (timers s)
            ∧ (timerCallback k r s).1 = Returned ()).
Proof.
  split.
  - intros Hk. unfold_handler. by rewrite Hk.
  - intros jobId Hk Habs. unfold_handler. rewrite Hk. simpl.
    by rewrite resolve_update_absent.
Qed.

Lemma callback_without_record_witness :
  processingHistory (run [DeleteHistoryItem "k3x9q2a"; TimerFires 0 (HttpNotOk 502)] submitted)
  = [].
Proof.
  destruct (callback_without_record 0 (HttpNotOk 502)
              (run [DeleteHistoryItem "k3x9q2a"] submitted)) as [_ H].
  destruct (H "k3x9q2a") as (Hh & _); [reflexivity | | exact Hh].
  vm_compute. intros Hin. by apply elem_of_nil in Hin.
Defined.

Lemma filter_resolve_update (id jobId : string) outcome
    (prev : list ProcessingHistoryItem) :
  filter (λ item, HistoryItem.id item ≠ id) (resolve_update jobId outcome prev)
  = resolve_update jobId outcome (filter (λ item, HistoryItem.id item ≠ id) prev).
Proof.
  unfold resolve_update. induction prev as [|item prev IH]; [reflexivity|].
  rewrite fmap_cons, !filter_cons.
  assert (HistoryItem.id
            (if bool_decide (HistoryItem.id item = jobId)
             then settle outcome item else item)
          = HistoryItem.id item) as Hid.
  { case_bool_decide; [apply settle_id | reflexivity]. }
  rewrite Hid. destruct (decide (HistoryItem.id item ≠ id));
    [rewrite fmap_cons; by f_equal | done].
Qed.

(** X10: deleting a record and the resolution of a job commute: whichever
    of the two happens first, the resulting state is the same. *)
Theorem delete_commutes_with_resolution (id : string) (k : nat) (r : resolution)
    (s : AppState) :
  step (DeleteHistoryItem id) (step (TimerFires k r) s)
  = step (TimerFires k r) (step (DeleteHistoryItem id) s).
Proof.
  unfold step. simpl. unfold_handler.
  destruct (timers s !! k) as [jobId|]; simpl; [|reflexivity].
  f_equal. apply filter_resolve_update.
Qed.

(** X11: deleting is idempotent, and deleting an id that no record
    carries leaves the state as it is. *)
Theorem delete_twice_is_once (id : string) (s : AppState) :
  step (DeleteHistoryItem id) (step (DeleteHistoryItem id) s)
  = step (DeleteHistoryItem id) s
  ∧ (id ∉ HistoryItem.id <$> processingHistory s → step (DeleteHistoryItem id) s = s).
Proof.
  unfold step. simpl. unfold_handler. split.
  - f_equal. rewrite list_filter_filter. apply list_filter_iff. tauto.
  - intros Habs. destruct s as [imgs cur tool hist r al ts]. simpl in *. f_equal.
    induction hist as [|item hist IH]; [reflexivity|].
    rewrite fmap_cons in Habs. apply not_elem_of_cons in Habs as [Hne Habs].
    rewrite filter_cons, decide_True by done. f_equal. by apply IH.
Qed.

(** ** Viewing a result that has volumes *)

(** X12: for a record whose result lists at least one volume,
    [handleViewResult] hands that list to the renderer in exactly one
    [loadVolumes] call, also when the record carries an error, in which
    case the error is shown first as a notice; registry and history are
    untouched. *)
Theorem view_result_loads_once
    (item : ProcessingHistoryItem) (fetched : list NVImage)
    (result : NVDocument) (optionsArray : list ImageOptions) (s : AppState) :
  HistoryItem.result item = Some result →
  imageOptionsArray (data result) = Some optionsArray →
  optionsArray ≠ [] →
  let res := handleViewResult item fetched s in
  res.1 = Returned () ∧
  calls (nv res.2) = calls (nv s) ++ [LoadVolumes optionsArray] ∧
  volumes (nv res.2) = fetched ∧
  alerts res.2
  = alerts s ++ (if truthy (HistoryItem.error item)
                 then ["Process returned error message "
                       +:+ default "" (HistoryItem.error item)]
                 else []) ∧
  images res.2 = images s ∧
  processingHistory res.2 = processingHistory s.
Proof.
  intros Hres Harr Hne. unfold handleViewResult.
  unfold mbind, M_bind, get, nvRef_current; simpl. rewrite Hres.
  assert (bool_decide (length optionsArray = 0%nat) = false) as Hlen.
  { apply bool_decide_eq_false. intros H. by apply nil_length_inv in H. }
  destruct (truthy (HistoryItem.error item)); unfold_handler;
    rewrite Harr, Hlen; simpl; split_and!; try reflexivity.
  by rewrite app_nil_r.
Qed.

Lemma view_result_loads_once_witness :
  calls (nv (handleViewResult loadedItem [volC] initial).2) = [LoadVolumes oneOption]
  ∧ volumes (nv (handleViewResult loadedItem [volC] initial).2) = [volC].
Proof.
  destruct (view_result_loads_once loadedItem [volC]
              {| data := {| imageOptionsArray := Some oneOption |} |} oneOption initial)
    as (_ & Hcalls & Hvols & _); [reflexivity | reflexivity | discriminate |].
  split; [exact Hcalls | exact Hvols].
Defined.

(** X13: in a session in which no two submissions draw the same id, a
    record of the history that is not completed has no result, so that
    viewing it only shows the no-result notice and leaves the renderer
    alone; a completed record does have a result. *)
Theorem unfinished_record_shows_no_result
    (evs : list event) (item : ProcessingHistoryItem) (fetched : list NVImage)
    (s : AppState) :
  NoDup (drawn evs) →
  item ∈ processingHistory (run evs initial) →
  (HistoryItem.status item ≠ completed →
   handleViewResult item fetched s = alert "No result available for this item" s) ∧
  (HistoryItem.status item = completed → is_Some (HistoryItem.result item)).
Proof.
  intros Hnd Hin.
  pose proof (jobs_invariant_run evs [] initial jobs_invariant_initial Hnd
                ltac:(intros x _ Hx; by apply elem_of_nil in Hx)) as Hinv.
  pose proof (inv_consistent _ _ Hinv item Hin) as Hcons. unfold consistent in Hcons.
  split.
  - intros Hst. unfold handleViewResult. unfold mbind, M_bind, get. simpl.
    destruct (HistoryItem.status item); [| done |];
      destruct Hcons as [-> _]; reflexivity.
  - intros Hst. rewrite Hst in Hcons. tauto.
Qed.

Lemma unfinished_record_shows_no_result_witness :
  ∃ item, processingHistory (run two_jobs initial) !! 0%nat = Some item
          ∧ HistoryItem.status item = failed
          ∧ nv (handleViewResult item [volA] initial).2 = nv initial.
Proof.
  exists (HistoryItem.mk "p07zzm1" 2000
            {| imageOptionsArray := Some [options_of volA; options_of volB] |}
            "Image Registration" failed None (Some "HTTP error! Status: 502")).
  split; [reflexivity|]. split; [reflexivity|].
  edestruct (unfinished_record_shows_no_result two_jobs) as [H _]; last first.
  - rewrite H; [reflexivity | discriminate].
  - by apply (list_elem_of_lookup_2 _ 0%nat).
  - apply (bool_decide_unpack (NoDup (drawn two_jobs))). vm_compute. exact I.
Defined.

(** ** Pending records and their callbacks *)

Lemma elem_of_delete_other {A} (l : list A) (k : nat) (x y : A) :
  x ∈ l → l !! k = Some y → x ≠ y → x ∈ delete k l.
Proof.
  intros Hin Hk Hne. apply list_elem_of_lookup in Hin as [j Hj].
  apply list_elem_of_lookup.
  destruct (decide (j < k)%nat) as [Hlt | Hge].
  - exists j. by rewrite list_lookup_delete_lt.
  - assert (j ≠ k) by (intros ->; congruence).
    exists (j - 1)%nat. rewrite list_lookup_delete_ge by lia.
    by replace (S (j - 1)) with j by lia.
Qed.

Lemma pending_has_timer_step (ev : event) (s : AppState) :
  (∀ item, item ∈ processingHistory s → HistoryItem.status item = pending →
           HistoryItem.id item ∈ timers s) →
  ∀ item, item ∈ processingHistory (step ev s) → HistoryItem.status item = pending →
          HistoryItem.id item ∈ timers (step ev s).
Proof.
  intros Hinv item Hin Hst.
  destruct (step_jobs ev s)
    as [[Hsub Ht] | [(rnd & now & r & -> & Hh & Ht) | (k & r & jobId & -> & Hk & Ht & Hh)]];
    rewrite Ht; rewrite ?Hh in Hin.
  - apply Hinv; [|done]. by eapply elem_of_sublist.
  - apply elem_of_app. apply elem_of_cons in Hin as [-> | Hin].
    + right. by left.
    + left. by apply Hinv.
  - apply elem_of_resolve_update in Hin as (item0 & Hin & Hid & [[Hj ->] | [Hj ->]]).
    + rewrite settle_status in Hst. by destruct (try_block r).
    + eapply elem_of_delete_other; [by apply Hinv | exact Hk | done].
Qed.

(** X14: whatever the session, a record that is still pending has its
    timer callback outstanding: no sequence of events leaves a record
    pending with nothing left to settle it. *)
Theorem pending_record_has_callback (evs : list event) (item : ProcessingHistoryItem) :
  item ∈ processingHistory (run evs initial) →
  HistoryItem.status item = pending →
  HistoryItem.id item ∈ timers (run evs initial).
Proof.
  revert item. unfold run.
  induction evs as [|ev evs IH] using rev_ind; intros item.
  - intros Hin. by apply elem_of_nil in Hin.
  - rewrite foldl_app. simpl. by apply pending_has_timer_step.
Qed.

Lemma pending_record_has_callback_witness :
  "k3x9q2a" ∈ timers (run two_jobs initial).
Proof.
  apply (pending_record_has_callback two_jobs
           (HistoryItem.mk "k3x9q2a" 1000
              {| imageOptionsArray := Some [options_of volA; options_of volB] |}
              "Image Registration" pending None None)).
  - by apply (list_elem_of_lookup_2 _ 1%nat).
  - reflexivity.
Defined.

(** ** The order of the history *)

Lemma history_ids_step (ev : event) (s : AppState) :
  HistoryItem.id <$> processingHistory (step ev s)
  `sublist_of` reverse (drawn [ev]) ++ (HistoryItem.id <$> processingHistory s).
Proof.
  destruct (step_jobs ev s)
    as [[Hsub Ht] | [(rnd & now & r & -> & Hh & Ht) | (k & r & jobId & -> & Hk & Ht & Hh)]].
  - apply sublist_inserts_l. by apply fmap_sublist.
  - rewrite Hh. done.
  - rewrite Hh, resolve_update_ids. done.
Qed.

(** X15: the history is ordered by submission, most recent first: its
    ids, read from the head, are ids drawn by the session's submissions in
    the reverse of the order in which they were drawn, with the deleted
    and the refused ones left out.  No event reorders it. *)
Theorem history_is_most_recent_first (evs : list event) :
  HistoryItem.id <$> processingHistory (run evs initial) `sublist_of` reverse (drawn evs).
Proof.
  unfold run. induction evs as [|ev evs IH] using rev_ind; [done|].
  rewrite foldl_app, drawn_app, reverse_app. simpl.
  etrans; [apply history_ids_step|]. by apply sublist_app.
Qed.

(** ** The highlighted row *)

(** X16: after an image has been made active in a state where the
    registry ids are distinct and registry and renderer are aligned, the
    highlighted row of the image list is the one whose volume is visible:
    a row is highlighted exactly when its volume has opacity 1, and every
    other row's volume has opacity 0. *)
Theorem highlighted_row_is_visible (i k : nat) (row : ImageRow) (s : AppState) :
  NoDup (ImageFile.id <$> images s) →
  aligned s →
  imageRows (handleVisibility i s).2 !! k = Some row →
  opacity_of (row_key row) (nv (handleVisibility i s).2)
  = Some (if row_highlighted row then 1 else 0)
  ∧ (row_highlighted row = true ↔ k = i).
Proof.
  intros Hnd Hal Hrow.
  destruct (handleVisibility_made_active i s Hnd (aligned_resolves s Hal))
    as (_ & Hcur & Hop & _ & Himgs & _).
  unfold imageRows in Hrow. rewrite list_lookup_imap, Himgs, Hcur in Hrow.
  destruct (images s !! k) as [img|] eqn:E; [|done]. simpl in Hrow.
  injection Hrow as <-. simpl. rewrite (Hop k img E). unfold target.
  split.
  - destruct (decide (k = i)) as [-> | Hne].
    + by rewrite !bool_decide_true.
    + rewrite !bool_decide_false; [done | congruence | done].
  - rewrite bool_decide_eq_true. split; [congruence | by intros ->].
Qed.

Lemma highlighted_row_is_visible_witness :
  opacity_of "vol-a" (nv (handleVisibility 1 ready).2) = Some 0.
Proof.
  destruct (highlighted_row_is_visible 1 0
              {| row_key := "vol-a"; row_name := "A.nii";
                 row_checked := false; row_highlighted := false |} ready)
    as [H _]; [| reflexivity | reflexivity | exact H].
  apply (bool_decide_unpack (NoDup (ImageFile.id <$> images ready))).
  vm_compute. exact I.
Defined.

(** ** Sessions driven by the rendered controls *)

Lemma offered_resolves (value : string) :
  value ∈ radioValues → resolves (Some value) = true.
Proof.
  unfold radioValues, processingTools. rewrite !fmap_cons. simpl. intros Hin.
  apply elem_of_cons in Hin as [-> | Hin]; [reflexivity|].
  apply elem_of_cons in Hin as [-> | Hin]; [reflexivity|].
  by apply elem_of_nil in Hin.
Qed.

Lemma resolved_tool_name (toolId : string) :
  resolves (Some toolId) = true →
  name_or (find (λ t, bool_decide (ProcessingTool.id t = toolId)) processingTools) toolId
  ∈ ProcessingTool.name <$> processingTools.
Proof.
  unfold resolves, processingTools. simpl. intros Hres.
  apply bool_decide_eq_true in Hres as [t Ht].
  repeat case_bool_decide; simpl in *; simplify_eq.
  - by left.
  - right. by left.
Qed.

Lemma settle_toolName outcome (item : ProcessingHistoryItem) :
  HistoryItem.toolName (settle outcome item) = HistoryItem.toolName item.
Proof. by destruct outcome. Qed.

Lemma offered_step (ev : event) (s : AppState) :
  offered ev →
  (selectedTool s = None ∨ resolves (selectedTool s) = true) →
  (∀ item, item ∈ processingHistory s →
           HistoryItem.toolName item ∈ ProcessingTool.name <$> processingTools) →
  (selectedTool (step ev s) = None ∨ resolves (selectedTool (step ev s)) = true)
  ∧ (∀ item, item ∈ processingHistory (step ev s) →
             HistoryItem.toolName item ∈ ProcessingTool.name <$> processingTools).
Proof.
  intros Hev Htool Hnames. split.
  - destruct (step_cells ev s) as (-> & _).
    destruct ev; try exact Htool. right. by apply offered_resolves.
  - intros item Hin.
    destruct (step_jobs ev s)
      as [[Hsub Ht] | [(rnd & now & r & -> & Hh & Ht) | (k & r & jobId & -> & Hk & Ht & Hh)]];
      rewrite ?Hh in Hin.
    + apply Hnames. by eapply elem_of_sublist.
    + apply elem_of_cons in Hin as [-> | Hin]; [|by apply Hnames].
      assert (accepts s) as [_ Htruthy].
      { destruct (submit_rejected_or_accepted s) as [Hacc | Hrej]; [done|].
        exfalso. unfold step in Hh. simpl in Hh.
        rewrite (submit_rejected rnd now s Hrej) in Hh. simpl in Hh.
        apply (f_equal length) in Hh. simpl in Hh. lia. }
      unfold newItem. simpl.
      destruct (selectedTool s) as [toolId|]; [|done].
      destruct Htool as [? | Hres]; [done|]. by apply resolved_tool_name.
    + apply elem_of_resolve_update in Hin as (item0 & Hin & _ & [[_ ->] | [_ ->]]).
      * rewrite settle_toolName. by apply Hnames.
      * by apply Hnames.
Qed.

Lemma offered_run (evs : list event) :
  Forall offered evs →
  (selectedTool (run evs initial) = None ∨ resolves (selectedTool (run evs initial)) = true)
  ∧ (∀ item, item ∈ processingHistory (run evs initial) →
             HistoryItem.toolName item ∈ ProcessingTool.name <$> processingTools).
Proof.
  unfold run. induction evs as [|ev evs IH] using rev_ind; intros Hevs.
  - split; [by left|]. intros item Hin. by apply elem_of_nil in Hin.
  - apply Forall_app in Hevs as [Hevs Hev]. apply Forall_cons_1 in Hev as [Hev _].
    rewrite foldl_app. destruct (IH Hevs) as [Htool Hnames].
    exact (offered_step ev _ Hev Htool Hnames).
Qed.

(** C1: in every session of the component (the tool being chosen through
    the radio group, whose items are the processing tools), a submission
    made while no image is selected, or while the chosen tool id does not
    resolve to a processing tool, is turned down: the validation notice is
    shown and nothing else has changed, so no record is created, no timer
    is set and no volume is removed from the renderer. *)
Theorem submit_validation_in_session (evs : list event) (rnd : string) (now : Z) :
  Forall offered evs →
  filter (λ img, ImageFile.selected img = true) (images (run evs initial)) = []
  ∨ resolves (selectedTool (run evs initial)) = false →
  rejected (run evs initial) (handleProcessImages rnd now (run evs initial)).
Proof.
  intros Hevs Hrej. destruct (offered_run evs Hevs) as [Htool _].
  assert (filter (λ img, ImageFile.selected img = true) (images (run evs initial)) = []
          ∨ truthy (selectedTool (run evs initial)) = false) as Hrej'.
  { destruct Hrej as [Hsel | Hres]; [by left|]. right.
    destruct Htool as [-> | Hres']; [done | congruence]. }
  rewrite (submit_rejected rnd now _ Hrej').
  unfold rejected. unfold_handler. split_and!; reflexivity.
Qed.

Lemma submit_validation_in_session_witness :
  Forall offered untooled_session
  ∧ ImageFile.selected <$> images (run untooled_session initial) = [false; true]
  ∧ resolves (selectedTool (run untooled_session initial)) = false
  ∧ rejected (run untooled_session initial)
      (handleProcessImages "k3x9q2a" 1000 (run untooled_session initial))
  ∧ volumes (nv (handleProcessImages "k3x9q2a" 1000 (run untooled_session initial)).2)
    = [volA; volB].
Proof.
  assert (Forall offered untooled_session) as Hoff.
  { unfold untooled_session. repeat (apply Forall_cons; split; [exact I|]).
    apply Forall_nil_2. }
  split; [exact Hoff|]. split; [reflexivity|]. split; [reflexivity|].
  pose proof (submit_validation_in_session untooled_session "k3x9q2a" 1000 Hoff
                (or_intror eq_refl)) as Hrej.
  split; [exact Hrej|].
  destruct Hrej as (_ & _ & _ & _ & Hnv & _). by rewrite Hnv.
Defined.

(** X17: in a session in which the tool is only ever chosen through the
    radio group, whose items are the processing tools, the chosen tool is
    either absent or one of the processing tools.  In such a session a
    submission is turned down with the validation notice whenever no image
    is selected or the chosen tool does not resolve, and every record of
    the history carries the display name of a processing tool. *)
Theorem offered_tool_always_resolves (evs : list event) (rnd : string) (now : Z) :
  Forall offered evs →
  let s := run evs initial in
  (selectedTool s = None ∨ resolves (selectedTool s) = true) ∧
  (filter (λ img, ImageFile.selected img = true) (images s) = []
   ∨ resolves (selectedTool s) = false →
   rejected s (handleProcessImages rnd now s)) ∧
  (∀ item, item ∈ processingHistory s →
           HistoryItem.toolName item ∈ ProcessingTool.name <$> processingTools).
Proof.
  intros Hevs. simpl. destruct (offered_run evs Hevs) as [Htool Hnames].
  split_and!; [done | | done].
  intros Hrej.
  assert (filter (λ img, ImageFile.selected img = true) (images (run evs initial)) = []
          ∨ truthy (selectedTool (run evs initial)) = false) as Hrej'.
  { destruct Hrej as [Hsel | Hres]; [by left|]. right.
    destruct Htool as [-> | Hres']; [done | congruence]. }
  rewrite (submit_rejected rnd now _ Hrej').
  unfold rejected. unfold_handler. split_and!; reflexivity.
Qed.

Lemma offered_tool_always_resolves_witness :
  Forall offered setup_all
  ∧ selectedTool (run setup_all initial) = Some "registration"
  ∧ (selectedTool (run setup_all initial) = None
     ∨ resolves (selectedTool (run setup_all initial)) = true).
Proof.
  assert (Forall offered setup_all) as Hoff.
  { unfold setup_all. repeat (apply Forall_cons; split; [exact I|]).
    apply Forall_cons. split; [|apply Forall_nil_2].
    simpl. right. by left. }
  split; [exact Hoff|]. split; [reflexivity|].
  exact (proj1 (offered_tool_always_resolves setup_all "k3x9q2a" 1000 Hoff)).
Defined.

(** ** The view mode *)

Lemma last_filter_cons (v : string) (l : list string) (d : string) :
  default d (last (v :: l)) = default v (last l).
Proof.
  destruct l as [|a l]; [done|]. rewrite last_cons_cons.
  destruct (last (a :: l)) eqn:E; [done|]. by apply last_None in E.
Qed.

(** X18: the toggle group of the view selector ignores the empty value it
    reports when the active item is clicked again, and passes every other
    value on; so after any sequence of values the view mode is the last
    non-empty one (or the one it started with), and the renderer was given
    one slice-type code per non-empty value, in order: the code the table
    holds for the value, or 0 when the table holds none. *)
Theorem view_mode_follows_last_choice
    (sliceTypeMap : string → option Z) (values : list string) (c : ViewCells) :
  let c' := foldl (λ c value, onValueChange (handleViewMode sliceTypeMap) value c)
              c values in
  viewMode c' = default (viewMode c) (last (filter (λ v, v ≠ "") values)) ∧
  sliceTypes c'
  = sliceTypes c
    ++ ((λ v, default 0 (sliceTypeMap v)) <$> filter (λ v, v ≠ "") values).
Proof.
  simpl. revert c. induction values as [|v values IH]; intros c.
  - simpl. by rewrite app_nil_r.
  - simpl. rewrite filter_cons. unfold onValueChange at 2 4.
    destruct (decide (v = "")) as [-> | Hne].
    + rewrite bool_decide_true by done. rewrite decide_False by (intros H; by apply H).
      apply IH.
    + rewrite bool_decide_false by done. rewrite decide_True by done.
      destruct (IH (handleViewMode sliceTypeMap v c)) as [-> ->]. simpl. split.
      * by rewrite last_filter_cons.
      * rewrite <- app_assoc. simpl. do 2 f_equal. unfold or_zero.
        destruct (sliceTypeMap v) as [code|]; [|done]. simpl. by case_bool_decide.
Qed.

(** ** Ticking a box in the image list *)

(** X20: when the registry ids are distinct, ticking the box of a row
    (its handler toggles the image that carries the row's key) changes
    that row only: its checkbox flips, every other row, the order and the
    highlight stay as they are. *)
Theorem checkbox_flips_one_row (k : nat) (row : ImageRow) (s : AppState) :
  NoDup (ImageFile.id <$> images s) →
  imageRows s !! k = Some row →
  imageRows (toggleImageSelection (row_key row) s).2
  = <[k := {| row_key := row_key row; row_name := row_name row;
              row_checked := negb (row_checked row);
              row_highlighted := row_highlighted row |}]> (imageRows s).
Proof.
  intros Hnd Hrow. unfold_handler. unfold imageRows in *. simpl.
  rewrite list_lookup_imap in Hrow.
  destruct (images s !! k) as [img|] eqn:E; [|done]. simpl in Hrow.
  injection Hrow as <-. simpl.
  apply list_eq. intros j. rewrite list_lookup_imap, list_lookup_fmap.
  destruct (decide (j = k)) as [-> | Hne].
  - rewrite list_lookup_insert_eq
      by (rewrite length_imap; by eapply lookup_lt_Some).
    rewrite E. simpl. unfold toggle. by rewrite bool_decide_true.
  - rewrite list_lookup_insert_ne by done. rewrite list_lookup_imap.
    destruct (images s !! j) as [img'|] eqn:E'; [|done]. simpl.
    unfold toggle. rewrite bool_decide_false; [done|].
    intros Hid. apply Hne.
    eapply NoDup_lookup; [exact Hnd | |]; rewrite list_lookup_fmap.
    + by rewrite E'.
    + rewrite E. simpl. by rewrite Hid.
Qed.

Lemma checkbox_flips_one_row_witness :
  row_checked <$> imageRows (toggleImageSelection "vol-a" ready).2 = [true; true].
Proof.
  assert (NoDup (ImageFile.id <$> images ready)) as Hnd.
  { apply (bool_decide_unpack (NoDup (ImageFile.id <$> images ready))).
    vm_compute. exact I. }
  etrans; [|reflexivity].
  exact (f_equal (fmap row_checked)
           (checkbox_flips_one_row 0
              {| row_key := "vol-a"; row_name := "A.nii";
                 row_checked := false; row_highlighted := true |} ready Hnd eq_refl)).
Defined.
